(** * MindMap: question-bank parser and clinical-fact annotator

    A shallow embedding of [scripts/parse_questions.py] and
    [scripts/enrich_clinical_facts.py], and the properties of the
    specification that hold (or fail) on it.

    Text is a list of Unicode code points.  Python's tables for white
    space and line boundaries are reproduced in full.  Case mapping and
    decimal digits are reproduced for U+0000..U+00FF, the range of the
    Spanish source documents; code points above it are caseless and are
    not digits in this model.  Python's limit on the number of digits
    [int] accepts is not modelled. *)

From Stdlib Require Import NArith ZArith List Bool Lia String Ascii.
From stdpp Require Import base option list gmap.
Import ListNotations.

Set Default Proof Using "Type".

(** ** Text: Python [str] as a list of code points *)

Abbreviation text := (list N).

(** Code points of an ASCII literal. *)
Fixpoint cps (s : string) : text :=
  match s with
  | EmptyString => []
  | String a s' => N_of_ascii a :: cps s'
  end.
Arguments cps : simpl never.

Definition LF : N := 10%N.
Definition SPACE : N := 32%N.
(** U+2500 BOX DRAWINGS LIGHT HORIZONTAL, the rule character of the dumps. *)
Definition RULE : N := 9472%N.
Definition A_ACUTE : N := 193%N.
Definition a_acute : N := 225%N.
Definition i_acute : N := 237%N.

Definition in_range (lo hi c : N) : bool := (lo <=? c)%N && (c <=? hi)%N.

(** [str.isspace] on one code point; also the class [\s] of [re]. *)
Definition isspace (c : N) : bool :=
  in_range 9 13 c || in_range 28 32 c || (c =? 133)%N || (c =? 160)%N
  || (c =? 5760)%N || in_range 8192 8202 c || (c =? 8232)%N || (c =? 8233)%N
  || (c =? 8239)%N || (c =? 8287)%N || (c =? 12288)%N.

(** The line boundaries of [str.splitlines]. *)
Definition is_linebreak (c : N) : bool :=
  in_range 10 13 c || in_range 28 30 c || (c =? 133)%N
  || (c =? 8232)%N || (c =? 8233)%N.

(** The class [\d] of [re], and the digits [int] reads. *)
Definition isdecimal (c : N) : bool := in_range 48 57 c.

Definition lower_cp (c : N) : N :=
  if in_range 65 90 c then (c + 32)%N
  else if in_range 192 222 c && negb (c =? 215)%N then (c + 32)%N
  else c.

(** Full upper-case mapping, as [str.upper] applies it. *)
Definition upper_cp (c : N) : text :=
  if in_range 97 122 c then [(c - 32)%N]
  else if (c =? 181)%N then [924%N]
  else if (c =? 223)%N then [83%N; 83%N]
  else if (c =? 255)%N then [376%N]
  else if in_range 224 254 c && negb (c =? 247)%N then [(c - 32)%N]
  else [c].

(** Simple (one to one) upper-case mapping, as [re.IGNORECASE] uses it. *)
Definition simple_upper_cp (c : N) : N :=
  if (c =? 223)%N then c else hd c (upper_cp c).

Definition lower (s : text) : text := map lower_cp s.
Definition upper (s : text) : text := flat_map upper_cp s.

Definition text_eqb (a b : text) : bool := bool_decide (a = b).

Fixpoint startswith (p s : text) : bool :=
  match p, s with
  | [], _ => true
  | _ :: _, [] => false
  | a :: p', b :: s' => (a =? b)%N && startswith p' s'
  end.

Fixpoint lstrip (s : text) : text :=
  match s with
  | [] => []
  | c :: s' => if isspace c then lstrip s' else s
  end.

Definition rstrip (s : text) : text := rev (lstrip (rev s)).
Definition strip (s : text) : text := rstrip (lstrip s).

(** A Python string is falsy exactly when it is empty. *)
Definition nonempty (s : text) : bool :=
  match s with [] => false | _ :: _ => true end.

(** [str.splitlines()]: [cur] is the line being read, reversed. *)
Fixpoint splitlines_from (cur : text) (s : text) : list text :=
  match s with
  | [] => match cur with [] => [] | _ :: _ => [rev cur] end
  | c :: s' =>
      if is_linebreak c then
        match s' with
        | d :: s'' =>
            if (c =? 13)%N && (d =? 10)%N
            then rev cur :: splitlines_from [] s''
            else rev cur :: splitlines_from [] s'
        | [] => rev cur :: splitlines_from [] s'
        end
      else splitlines_from (c :: cur) s'
  end.

Definition splitlines (s : text) : list text := splitlines_from [] s.

(** [str.split()] with no argument: the maximal runs of non-space. *)
Fixpoint split_from (cur : text) (s : text) : list text :=
  match s with
  | [] => match cur with [] => [] | _ :: _ => [rev cur] end
  | c :: s' =>
      if isspace c then
        match cur with
        | [] => split_from [] s'
        | _ :: _ => rev cur :: split_from [] s'
        end
      else split_from (c :: cur) s'
  end.

Definition split (s : text) : list text := split_from [] s.

(** [sep.join(parts)]. *)
Fixpoint join (sep : text) (parts : list text) : text :=
  match parts with
  | [] => []
  | [p] => p
  | p :: ps => p ++ sep ++ join sep ps
  end.

(** [s.replace(" ", "")]. *)
Definition remove_spaces (s : text) : text :=
  List.filter (fun c => negb (c =? SPACE)%N) s.

(** *** Integers *)

Definition digit_value (c : N) : Z := Z.of_N c - 48.

(** The digits of an [int] literal, most significant first; one
    underscore is allowed between two digits. *)
Fixpoint int_digits (acc : Z) (prev_digit : bool) (s : text) : option Z :=
  match s with
  | [] => if prev_digit then Some acc else None
  | c :: s' =>
      if isdecimal c then int_digits (10 * acc + digit_value c) true s'
      else if (c =? 95)%N && prev_digit then
        match s' with
        | d :: _ => if isdecimal d then int_digits acc false s' else None
        | [] => None
        end
      else None
  end.

(** [int(s)]: [None] stands for [ValueError]. *)
Definition py_int (s : text) : option Z :=
  match strip s with
  | [] => None
  | c :: s' =>
      if (c =? 43)%N then int_digits 0 false s'
      else if (c =? 45)%N then option_map Z.opp (int_digits 0 false s')
      else int_digits 0 false (c :: s')
  end.

(** Decimal digits of a natural number, by repeated division. *)
Fixpoint nat_digits (fuel : nat) (n : N) (acc : text) : text :=
  match fuel with
  | O => acc
  | S fuel' =>
      let acc' := (48 + n mod 10)%N :: acc in
      if (n <? 10)%N then acc' else nat_digits fuel' (n / 10)%N acc'
  end.

Definition str_N (n : N) : text := nat_digits (S (N.to_nat (N.log2 n))) n [].

(** [str(z)] for an [int]. *)
Definition str_int (z : Z) : text :=
  if (z <? 0)%Z then 45%N :: str_N (Z.abs_N z) else str_N (Z.abs_N z).

(** [f"{z:02d}"]: the sign first, then zeros up to width two. *)
Definition format_02d (z : Z) : text :=
  let ds := str_N (Z.abs_N z) in
  if (z <? 0)%Z then 45%N :: ds
  else match ds with [d] => [48%N; d] | _ => ds end.

(** Lexicographic order on code points, the order of [sorted] on [str]. *)
Fixpoint text_ltb (a b : text) : bool :=
  match a, b with
  | _, [] => false
  | [], _ :: _ => true
  | x :: a', y :: b' => (x <? y)%N || ((x =? y)%N && text_ltb a' b')
  end.

(** ** Regular expressions: the fragment of [re] the scripts use

    A backtracking matcher that lists the ways a pattern can match at a
    position in the order [re] tries them, so that the first one is the
    match [re] reports: alternatives left to right, repetitions greedy. *)

Inductive cset :=
| CChar (c : N)
| CRange (lo hi : N)
| CSpace
| CDigit.

Inductive regex :=
| Empty
| Lit (c : N)
| Dot
| Class (negated : bool) (items : list cset)
| Bol
| Eol
| Cat (r1 r2 : regex)
| Or (r1 r2 : regex)
| Star (r : regex)
| Group (i : nat) (r : regex).

Definition Plus (r : regex) : regex := Cat r (Star r).

(** [r{n,}] *)
Fixpoint AtLeast (n : nat) (r : regex) : regex :=
  match n with
  | O => Star r
  | S n' => Cat r (AtLeast n' r)
  end.

Fixpoint Str (s : text) : regex :=
  match s with
  | [] => Empty
  | [c] => Lit c
  | c :: s' => Cat (Lit c) (Str s')
  end.

Fixpoint Seq (rs : list regex) : regex :=
  match rs with
  | [] => Empty
  | [r] => r
  | r :: rs' => Cat r (Seq rs')
  end.

Fixpoint Alts (rs : list regex) : regex :=
  match rs with
  | [] => Class false []
  | [r] => r
  | r :: rs' => Or r (Alts rs')
  end.

Definition Space : regex := Class false [CSpace].
Definition Digit : regex := Class false [CDigit].

(** A compiled pattern: the expression and the [re.IGNORECASE] flag. *)
Record pattern := { p_re : regex; p_ignorecase : bool }.

Fixpoint ngroups (r : regex) : nat :=
  match r with
  | Cat r1 r2 | Or r1 r2 => Nat.max (ngroups r1) (ngroups r2)
  | Star r1 => ngroups r1
  | Group i r1 => Nat.max i (ngroups r1)
  | _ => O
  end.

(** Matcher state: offset in the subject, what is left of it, and the
    groups closed so far (most recent first). *)
Record mstate := { m_pos : nat; m_rest : text; m_groups : list (nat * text) }.

Definition lit_eqb (ic : bool) (c x : N) : bool :=
  if ic then (lower_cp c =? lower_cp x)%N else (c =? x)%N.

Definition cset_mem (ic : bool) (x : N) (item : cset) : bool :=
  match item with
  | CChar c => lit_eqb ic c x
  | CRange lo hi =>
      in_range lo hi x
      || (ic && (in_range lo hi (lower_cp x) || in_range lo hi (simple_upper_cp x)))
  | CSpace => isspace x
  | CDigit => isdecimal x
  end.

Definition class_mem (ic negated : bool) (items : list cset) (x : N) : bool :=
  xorb negated (existsb (cset_mem ic x) items).

(** Consume one code point satisfying [ok]. *)
Definition step_char (ok : N -> bool) (st : mstate) : list mstate :=
  match m_rest st with
  | x :: rest =>
      if ok x
      then [{| m_pos := S (m_pos st); m_rest := rest; m_groups := m_groups st |}]
      else []
  | [] => []
  end.

(** Close group [i], opened at [st0], at [st]. *)
Definition close_group (i : nat) (st0 st : mstate) : mstate :=
  {| m_pos := m_pos st; m_rest := m_rest st;
     m_groups := (i, firstn (m_pos st - m_pos st0) (m_rest st0)) :: m_groups st |}.

(** Greedy repetition: one more iteration first, then none.  An
    iteration that consumes nothing is not repeated. *)
Fixpoint star_loop (step : mstate -> list mstate) (fuel : nat) (st : mstate)
  : list mstate :=
  match fuel with
  | O => [st]
  | S fuel' =>
      flat_map (fun st' =>
                  if m_pos st <? m_pos st' then star_loop step fuel' st' else [])
               (step st)
      ++ [st]
  end.

Fixpoint rmatch (ic : bool) (r : regex) (st : mstate) : list mstate :=
  match r with
  | Empty => [st]
  | Lit c => step_char (lit_eqb ic c) st
  | Dot => step_char (fun x => negb (x =? LF)%N) st
  | Class negated items => step_char (class_mem ic negated items) st
  | Bol => if m_pos st =? 0 then [st] else []
  | Eol => match m_rest st with
           | [] => [st]
           | [x] => if (x =? LF)%N then [st] else []
           | _ => []
           end
  | Cat r1 r2 => flat_map (rmatch ic r2) (rmatch ic r1 st)
  | Or r1 r2 => rmatch ic r1 st ++ rmatch ic r2 st
  | Star r1 => star_loop (rmatch ic r1) (S (length (m_rest st))) st
  | Group i r1 => map (close_group i st) (rmatch ic r1 st)
  end.

(** A match object. *)
Record Match := {
  mt_start : nat;
  mt_end : nat;
  mt_text : text;               (* group(0) *)
  mt_groups : list (nat * text);
  mt_ngroups : nat              (* len(groups()) *)
}.

(** [m.group(i)] for [i >= 1]; [None] when the group took no part. *)
Fixpoint assoc (i : nat) (gs : list (nat * text)) : option text :=
  match gs with
  | [] => None
  | (j, t) :: gs' => if i =? j then Some t else assoc i gs'
  end.

Definition group (m : Match) (i : nat) : option text := assoc i (mt_groups m).

(** The first way [p] matches at offset [pos], where [rest] is the
    subject from [pos] on.  With [must_advance] an empty match is
    passed over, as the scanner does after an empty match. *)
Definition match_at (p : pattern) (must_advance : bool) (pos : nat) (rest : text)
  : option Match :=
  let st0 := {| m_pos := pos; m_rest := rest; m_groups := [] |} in
  match List.find (fun st => negb must_advance || (pos <? m_pos st))
                  (rmatch (p_ignorecase p) (p_re p) st0) with
  | Some st =>
      Some {| mt_start := pos; mt_end := m_pos st;
              mt_text := firstn (m_pos st - pos) rest;
              mt_groups := m_groups st;
              mt_ngroups := ngroups (p_re p) |}
  | None => None
  end.

(** [p.match(s)] *)
Definition re_match (p : pattern) (s : text) : option Match :=
  match_at p false 0 s.

(** The matches that start at one offset: an empty match may be
    followed by a match that advances. *)
Definition matches_here (p : pattern) (pos : nat) (rest : text) : list Match :=
  match match_at p false pos rest with
  | None => []
  | Some m =>
      if mt_end m =? pos then
        match match_at p true pos rest with
        | None => [m]
        | Some m' => [m; m']
        end
      else [m]
  end.

Definition last_end (pos : nat) (ms : list Match) : nat :=
  match rev ms with
  | [] => pos
  | m :: _ => mt_end m
  end.

(** The scanner behind [finditer], [search], [split] and [sub]: the
    successive non-overlapping matches from left to right, each with
    the unmatched text before it, and the unmatched text after the
    last one.  [skip] counts the code points still inside the previous
    match; [gap] is the unmatched text being read, reversed. *)
Fixpoint scan (p : pattern) (pos : nat) (rest : text) (skip : nat) (gap : text)
  : list (text * Match) * text :=
  match skip with
  | S skip' =>
      match rest with
      | [] => ([], rev gap)
      | _ :: rest' => scan p (S pos) rest' skip' gap
      end
  | O =>
      match matches_here p pos rest with
      | [] =>
          match rest with
          | [] => ([], rev gap)
          | c :: rest' => scan p (S pos) rest' 0 (c :: gap)
          end
      | m :: ms =>
          let found := (rev gap, m) :: map (fun m' => ([], m')) ms in
          match rest with
          | [] => (found, [])
          | c :: rest' =>
              let k := last_end pos (m :: ms) - pos in
              let '(more, tail) :=
                match k with
                | O => scan p (S pos) rest' 0 [c]
                | S k' => scan p (S pos) rest' k' []
                end in
              (found ++ more, tail)
          end
      end
  end.

(** [p.finditer(s)] *)
Definition finditer (p : pattern) (s : text) : list Match :=
  map snd (fst (scan p 0 s 0 [])).

(** [p.search(s)] *)
Definition re_search (p : pattern) (s : text) : option Match :=
  head (finditer p s).

(** [p.split(s)], for a pattern without groups. *)
Definition re_split (p : pattern) (s : text) : list text :=
  let '(found, tail) := scan p 0 s 0 [] in
  map fst found ++ [tail].

(** [p.sub(repl, s)], for a replacement without group references. *)
Definition re_sub (p : pattern) (repl : text) (s : text) : text :=
  let '(found, tail) := scan p 0 s 0 [] in
  flat_map (fun gm => fst gm ++ repl) found ++ tail.

(** The text of group [i], empty when it took no part. *)
Definition group_text (m : Match) (i : nat) : text := default [] (group m i).

(** ** Exceptions *)

Inductive exn :=
| ValueError (msg : text)
| TypeError
| AttributeError
| ReError (source : text).

Inductive result (A : Type) :=
| Ok (a : A)
| Raise (e : exn).
Arguments Ok {A} a.
Arguments Raise {A} e.

Definition bind {A B} (x : result A) (f : A -> result B) : result B :=
  match x with
  | Ok a => f a
  | Raise e => Raise e
  end.

(** A list comprehension whose body may raise: the first exception
    ends it. *)
Fixpoint for_each {A B} (f : A -> result B) (xs : list A) : result (list B) :=
  match xs with
  | [] => Ok []
  | x :: xs' =>
      bind (f x) (fun y => bind (for_each f xs') (fun ys => Ok (y :: ys)))
  end.

(** ** JSON values, as [json.loads] yields them (numbers are integers) *)

#[warnings="-register-all"]
Inductive json :=
| JNull
| JBool (b : bool)
| JNum (z : Z)
| JStr (s : text)
| JArr (items : list json)
| JObj (fields : list (text * json)).

(** ** [parse_questions.py] *)

Definition UPPER_AZ : regex := Class false [CRange 65 90].

(** [^([A-Z])\)\s*(.+)$] *)
Definition OPTION_RE : pattern :=
  {| p_re := Seq [Bol; Group 1 UPPER_AZ; Lit 41; Star Space;
                  Group 2 (Plus Dot); Eol];
     p_ignorecase := false |}.

(** [Pregunta\s+(?P<number>\d+)\s*\((?P<label>[^)]+)\):], IGNORECASE;
    [number] is group 1 and [label] group 2. *)
Definition HEADER_RE : pattern :=
  {| p_re := Seq [Str (cps "Pregunta"); Plus Space; Group 1 (Plus Digit);
                  Star Space; Lit 40; Group 2 (Plus (Class true [CChar 41]));
                  Lit 41; Lit 58];
     p_ignorecase := true |}.

Definition especifico_acute : text := cps "espec" ++ [i_acute] ++ cps "fico".

(** [^(?P<key>Área|Area|Tema|Subtema|Subtema específico|Subtema especifico):\s*(?P<value>.+)$],
    IGNORECASE; [key] is group 1 and [value] group 2. *)
Definition META_RE : pattern :=
  {| p_re := Seq [Bol;
                  Group 1 (Alts [Str (A_ACUTE :: cps "rea"); Str (cps "Area");
                                 Str (cps "Tema"); Str (cps "Subtema");
                                 Str (cps "Subtema " ++ especifico_acute);
                                 Str (cps "Subtema especifico")]);
                  Lit 58; Star Space; Group 2 (Plus Dot); Eol];
     p_ignorecase := true |}.

(** [Respuesta correcta:\s*([A-Z])\)\s*(.+)$], IGNORECASE *)
Definition ANSWER_RE : pattern :=
  {| p_re := Seq [Str (cps "Respuesta correcta:"); Star Space; Group 1 UPPER_AZ;
                  Lit 41; Star Space; Group 2 (Plus Dot); Eol];
     p_ignorecase := true |}.

(** [\s+] *)
Definition SPACES_RE : pattern :=
  {| p_re := Plus Space; p_ignorecase := false |}.

(** [\n+─{10,}\n+] *)
Definition DELIM_RE : pattern :=
  {| p_re := Seq [Plus (Lit LF); AtLeast 10 (Lit RULE); Plus (Lit LF)];
     p_ignorecase := false |}.

Record AnswerOption := {
  o_id : text;
  o_text : text;
  o_linked_entity : option text
}.

Record Question := {
  q_id : text;
  q_source_exam : text;
  q_year : option Z;
  q_number : Z;
  q_domain : option text;
  q_topic : option text;
  q_subtopic : option text;
  q_focus : option text;
  q_stem : text;
  q_options : list AnswerOption;
  q_answer_key : text;
  q_answer_text : text;
  q_clinical_entities : list json;
  q_reasoning_tags : list text;
  q_metadata : list (text * text)
}.

Definition normalize_spaces (t : text) : text :=
  strip (re_sub SPACES_RE (cps " ") t).

(** [a or b] on optional strings: [None] and the empty string are falsy. *)
Definition or_else (a b : option text) : option text :=
  match a with
  | Some (_ :: _) => a
  | _ => b
  end.

Definition parse_header (line : text) : result (Z * text * option Z) :=
  match re_match HEADER_RE line with
  | None => Raise (ValueError (cps "No se pudo interpretar el encabezado"))
  | Some m =>
      match py_int (group_text m 1) with
      | None => Raise (ValueError (cps "invalid literal for int()"))
      | Some number =>
          let label := strip (group_text m 2) in
          let tokens := split label in
          let '(exam, year) :=
            match last tokens with
            | None => (label, None)
            | Some tok =>
                match py_int tok with
                | Some y =>
                    let front := join (cps " ") (removelast tokens) in
                    (if nonempty front then front else tok, Some y)
                | None => (label, None)
                end
            end in
          Ok (number, strip exam, year)
      end
  end.

(** The lines kept from a block: blank lines are dropped, the rest
    lose their trailing white space. *)
Definition chunk_lines (chunk : text) : list text :=
  map rstrip
      (List.filter (fun ln => nonempty (strip ln) || startswith (cps "Pregunta") ln)
                   (splitlines chunk)).

Definition is_header_line (ln : text) : bool :=
  startswith (cps "pregunta") (lower ln).

Definition is_answer_line (ln : text) : bool :=
  startswith (cps "respuesta correcta") (lower ln).

(** [lines[lines.index(x) + 1:]] *)
Fixpoint after_first (x : text) (lines : list text) : list text :=
  match lines with
  | [] => []
  | ln :: lines' => if text_eqb ln x then lines' else after_first x lines'
  end.

(** The loops of [parse_chunk] run an index over [lines]; here each
    takes [lines[idx:]] and returns what it leaves. *)
Fixpoint read_meta (meta : gmap text text) (rest : list text)
  : gmap text text * list text :=
  match rest with
  | [] => (meta, [])
  | ln :: rest' =>
      match re_match META_RE (strip ln) with
      | None => (meta, rest)
      | Some m =>
          read_meta (<[lower (group_text m 1) := strip (group_text m 2)]> meta) rest'
      end
  end.

Fixpoint skip_blank (rest : list text) : list text :=
  match rest with
  | [] => []
  | ln :: rest' => if nonempty (strip ln) then rest else skip_blank rest'
  end.

Fixpoint read_stem (rest : list text) : list text * list text :=
  match rest with
  | [] => ([], [])
  | ln :: rest' =>
      match re_match OPTION_RE (strip ln) with
      | Some _ => ([], rest)
      | None => let '(stem_lines, rest'') := read_stem rest' in
                (ln :: stem_lines, rest'')
      end
  end.

Fixpoint read_options (rest : list text) : list AnswerOption :=
  match rest with
  | [] => []
  | ln :: rest' =>
      let line := strip ln in
      if is_answer_line line then []
      else match re_match OPTION_RE line with
           | Some m =>
               {| o_id := group_text m 1; o_text := strip (group_text m 2);
                  o_linked_entity := None |} :: read_options rest'
           | None => read_options rest'
           end
  end.

Definition read_answer (lines : list text) : text * text :=
  match List.find is_answer_line lines with
  | None => ([], [])
  | Some answer_line =>
      if nonempty answer_line then
        match re_search ANSWER_RE answer_line with
        | Some m => (upper (group_text m 1), strip (group_text m 2))
        | None => ([], [])
        end
      else ([], [])
  end.

(** [f"{(exam or 'EXAM').replace(' ', '').upper()}-{year or 'XXXX'}-{number:02d}"] *)
Definition make_id (exam : text) (year : option Z) (number : Z) : text :=
  upper (remove_spaces (if nonempty exam then exam else cps "EXAM"))
  ++ cps "-"
  ++ match year with
     | Some y => if (y =? 0)%Z then cps "XXXX" else str_int y
     | None => cps "XXXX"
     end
  ++ cps "-" ++ format_02d number.

(** [sorted({a, b} - {""})] *)
Definition sorted_tags (a b : text) : list text :=
  match List.filter nonempty (if text_eqb a b then [a] else [a; b]) with
  | [x; y] => if text_ltb y x then [y; x] else [x; y]
  | xs => xs
  end.

Definition subtema : text := cps "subtema".
Definition subtema_especifico_acute : text := cps "subtema " ++ especifico_acute.
Definition subtema_especifico : text := cps "subtema especifico".

Definition parse_chunk (chunk : text) : result Question :=
  let lines := chunk_lines chunk in
  match List.find is_header_line lines with
  | None => Raise (ValueError (cps "Bloque sin encabezado de pregunta"))
  | Some header_line =>
      if negb (nonempty header_line)
      then Raise (ValueError (cps "Bloque sin encabezado de pregunta"))
      else
        bind (parse_header header_line) (fun '(number, exam, year) =>
          let '(meta, rest) := read_meta ∅ (after_first header_line lines) in
          let rest := skip_blank rest in
          let '(stem_lines, rest) := read_stem rest in
          let stem := strip (join [LF] (map strip stem_lines)) in
          let options := read_options rest in
          let '(answer_key, answer_text) := read_answer lines in
          let reasoning_tags :=
            sorted_tags
              (normalize_spaces (default [] (meta !! subtema)))
              (normalize_spaces
                 (default (default [] (meta !! subtema_especifico))
                          (meta !! subtema_especifico_acute))) in
          Ok {| q_id := make_id exam year number;
                q_source_exam := exam;
                q_year := year;
                q_number := number;
                q_domain := or_else (meta !! (a_acute :: cps "rea")) (meta !! cps "area");
                q_topic := meta !! cps "tema";
                q_subtopic := meta !! subtema;
                q_focus := or_else (meta !! subtema_especifico_acute)
                                   (meta !! subtema_especifico);
                q_stem := stem;
                q_options := options;
                q_answer_key := answer_key;
                q_answer_text := answer_text;
                q_clinical_entities := [];
                q_reasoning_tags := reasoning_tags;
                q_metadata := [(cps "raw_header", header_line)] |})
  end.

(** The blocks of a document: [raw_chunks] in [parse_file]. *)
Definition raw_chunks (t : text) : list text :=
  map strip (List.filter (fun chunk => nonempty (strip chunk)) (re_split DELIM_RE t)).

(** [parse_file], on the text of the file. *)
Definition parse_file (t : text) : result (list Question) :=
  for_each parse_chunk (raw_chunks t).

(** ** [enrich_clinical_facts.py] *)

(** An entry of the pattern file. *)
Record PatternSpec := {
  ps_pattern : text;
  ps_type : text;
  ps_label : text;
  ps_attributes : option (list (text * json))
}.

(** The entry once [load_patterns] has added its ["regex"]. *)
Record LoadedPattern := {
  lp_spec : PatternSpec;
  lp_regex : pattern
}.

Section Loader.

(** The syntax of regular expressions: what [re.compile] accepts, and
    the expression it reads; [None] stands for [re.error]. *)
Variable re_parse : text -> option regex.

Definition re_compile (source : text) (ignorecase : bool) : result pattern :=
  match re_parse source with
  | Some r => Ok {| p_re := r; p_ignorecase := ignorecase |}
  | None => Raise (ReError source)
  end.

Definition load_patterns (data : list PatternSpec) : result (list LoadedPattern) :=
  for_each (fun item =>
              bind (re_compile (ps_pattern item) true)
                   (fun rx => Ok {| lp_spec := item; lp_regex := rx |}))
           data.

End Loader.

(** Python truth value of a JSON value. *)
Definition truthy (v : json) : bool :=
  match v with
  | JNull => false
  | JBool b => b
  | JNum z => negb (z =? 0)%Z
  | JStr s => nonempty s
  | JArr items => match items with [] => false | _ :: _ => true end
  | JObj fields => match fields with [] => false | _ :: _ => true end
  end.

(** [d[k] = v] on a dict kept in insertion order. *)
Fixpoint dict_set (k : text) (v : json) (d : list (text * json))
  : list (text * json) :=
  match d with
  | [] => [(k, v)]
  | (k', v') :: d' =>
      if text_eqb k' k then (k, v) :: d' else (k', v') :: dict_set k v d'
  end.

Fixpoint dict_get (k : text) (d : list (text * json)) : option json :=
  match d with
  | [] => None
  | (k', v') :: d' => if text_eqb k' k then Some v' else dict_get k d'
  end.

(** [match.group(1)] as a JSON value. *)
Definition group_json (m : Match) (i : nat) : json :=
  match group m i with
  | Some t => JStr t
  | None => JNull
  end.

Definition timeline : text := cps "timeline".

(** The body of the inner loop of [enrich_question]. *)
Definition make_entity (p : LoadedPattern) (m : Match) : json :=
  let attributes := default [] (ps_attributes (lp_spec p)) in
  let attributes :=
    if text_eqb (ps_type (lp_spec p)) timeline && (0 <? mt_ngroups m)
    then dict_set (cps "value") (group_json m 1) attributes
    else attributes in
  JObj [(cps "type", JStr (ps_type (lp_spec p)));
        (cps "value", JStr (ps_label (lp_spec p)));
        (cps "text_span", JStr (mt_text m));
        (cps "attributes", JObj attributes)].

(** [entities.append(entity)] *)
Definition append (entities entity : json) : result json :=
  match entities with
  | JArr items => Ok (JArr (items ++ [entity]))
  | _ => Raise AttributeError
  end.

(** A [for] loop that threads a value and may raise. *)
Fixpoint for_fold {A S} (body : S -> A -> result S) (xs : list A) (s : S)
  : result S :=
  match xs with
  | [] => Ok s
  | x :: xs' => bind (body s x) (for_fold body xs')
  end.

(** [pattern["regex"].finditer(text)] *)
Definition finditer_json (p : pattern) (subject : json) : result (list Match) :=
  match subject with
  | JStr s => Ok (finditer p s)
  | _ => Raise TypeError
  end.

Definition stem_key : text := cps "stem".
Definition entities_key : text := cps "clinical_entities".

(** [question.get("stem", "")] *)
Definition question_text (question : gmap text json) : json :=
  default (JStr []) (question !! stem_key).

(** [question.get("clinical_entities", []) or []] *)
Definition question_entities (question : gmap text json) : json :=
  let found := default (JArr []) (question !! entities_key) in
  if truthy found then found else JArr [].

Definition enrich_question (question : gmap text json)
  (patterns : list LoadedPattern) : result (gmap text json) :=
  let text := question_text question in
  let entities := question_entities question in
  bind (for_fold (fun entities pattern =>
                    bind (finditer_json (lp_regex pattern) text)
                         (fun ms =>
                            for_fold (fun entities m =>
                                        append entities (make_entity pattern m))
                                     ms entities))
                 patterns entities)
       (fun entities => Ok (<[entities_key := entities]> question)).

(** The comprehension of [process], on the questions and patterns read;
    [dict(q)] copies the question before it is enriched. *)
Definition enrich_all (questions : list (gmap text json))
  (patterns : list LoadedPattern) : result (list (gmap text json)) :=
  for_each (fun q => enrich_question q patterns) questions.

Section Process.

Variable re_parse : text -> option regex.

Definition process (questions : list (gmap text json)) (data : list PatternSpec)
  : result (list (gmap text json)) :=
  bind (load_patterns re_parse data) (enrich_all questions).

End Process.

(** The number of clinical entities a question carries. *)
Definition entity_count (question : gmap text json) : nat :=
  match question !! entities_key with
  | Some (JArr items) => length items
  | _ => 0
  end.

(** ** Definitions used to state the properties *)

(** The entities one pass over [patterns] finds in [s]: patterns in
    declaration order, and for each its matches from left to right. *)
Definition new_entities (patterns : list LoadedPattern) (s : text) : list json :=
  flat_map (fun p => map (make_entity p) (finditer (lp_regex p) s)) patterns.

(** The attributes of an entity record. *)
Definition entity_attribute (entity : json) (k : text) : option json :=
  match entity with
  | JObj fields =>
      match dict_get (cps "attributes") fields with
      | Some (JObj attributes) => dict_get k attributes
      | _ => None
      end
  | _ => None
  end.

Definition entity_field (entity : json) (k : text) : option json :=
  match entity with
  | JObj fields => dict_get k fields
  | _ => None
  end.

(** The patterns and the stem of the annotation example. *)
Definition dias : text := cps "d" ++ [i_acute] ++ cps "as".

Definition fever_pattern : LoadedPattern :=
  {| lp_spec := {| ps_pattern := cps "fiebre"; ps_type := cps "symptom";
                   ps_label := cps "fever"; ps_attributes := None |};
     lp_regex := {| p_re := Str (cps "fiebre"); p_ignorecase := true |} |}.

(** [(\d+) días] *)
Definition duration_pattern : LoadedPattern :=
  {| lp_spec := {| ps_pattern := cps "(\d+) " ++ dias; ps_type := timeline;
                   ps_label := cps "duration"; ps_attributes := None |};
     lp_regex := {| p_re := Seq [Group 1 (Plus Digit); Lit SPACE; Str dias];
                    p_ignorecase := true |} |}.

Definition fever_stem : text := cps "fiebre de 3 " ++ dias.

Definition fever_question : gmap text json :=
  {[ stem_key := JStr fever_stem ]}.

(** Questions for the examples: one with a stem and an id, one with
    neither stem nor entities. *)
Definition plain_question : gmap text json :=
  {[ stem_key := JStr (cps "sin fiebre"); cps "id" := JStr (cps "ENARM-2023-07") ]}.


(** The identifier as the specification words it: the exam name in
    upper case without spaces, the year or "XXXX", and the number padded
    with zeros to two digits. *)
Definition zero_pad (width : nat) (s : text) : text :=
  repeat 48%N (width - length s) ++ s.

Definition spec_identifier (exam : text) (year : option Z) (number : Z) : text :=
  upper (remove_spaces exam) ++ cps "-"
  ++ match year with
     | Some y => str_int y
     | None => cps "XXXX"
     end
  ++ cps "-" ++ zero_pad 2 (str_int number).

(** What is left of [lines] once the header, the metadata and the stem
    have been read: the lines the option loop of [parse_chunk] runs over. *)
Definition lines_after_meta (header_line : text) (lines : list text) : list text :=
  skip_blank (snd (read_meta ∅ (after_first header_line lines))).

Definition option_lines (header_line : text) (lines : list text) : list text :=
  snd (read_stem (lines_after_meta header_line lines)).

(** [st'] is reached from [st] by reading [consumed]. *)
Definition advances (st st' : mstate) (consumed : text) : Prop :=
  m_rest st = consumed ++ m_rest st' /\ m_pos st' = m_pos st + length consumed.

Fixpoint has_group (i : nat) (r : regex) : bool :=
  match r with
  | Cat r1 r2 | Or r1 r2 => has_group i r1 || has_group i r2
  | Star r1 => has_group i r1
  | Group j r1 => (i =? j) || has_group i r1
  | _ => false
  end.

Fixpoint take_while {A} (keep : A -> bool) (xs : list A) : list A :=
  match xs with
  | [] => []
  | x :: xs' => if keep x then x :: take_while keep xs' else []
  end.

(** A line of the form [<Key>: <Value>] with a recognized key. *)
Definition is_meta_line (ln : text) : bool :=
  match re_match META_RE (strip ln) with
  | Some _ => true
  | None => false
  end.

(** [meta[key] = value] for one metadata line. *)
Definition add_meta (meta : gmap text text) (ln : text) : gmap text text :=
  match re_match META_RE (strip ln) with
  | Some m => <[lower (group_text m 1) := strip (group_text m 2)]> meta
  | None => meta
  end.




(** Blocks for the examples. *)
Definition header_2023 : text := cps "Pregunta 7 (ENARM 2023):".


Definition block_blank_before_meta : text :=
  header_2023 ++ [LF; LF] ++ cps "Tema: Cardio" ++ [LF] ++ cps "Texto".

Definition block_text_before_meta : text :=
  header_2023 ++ [LF] ++ cps "Texto" ++ [LF] ++ cps "Tema: Cardio".


(** *** Segmentation *)

(** A delimiter: one or more line feeds, ten or more rule characters,
    one or more line feeds. *)
Definition delimiter (a k c : nat) : text :=
  repeat LF (S a) ++ repeat RULE (10 + k) ++ repeat LF (S c).

Definition is_delimiter (d : text) : Prop := exists a k c, d = delimiter a k c.

(** [s.split("\n")] *)
Fixpoint lines_lf (s : text) : list text :=
  match s with
  | [] => [[]]
  | c :: s' =>
      if (c =? LF)%N then [] :: lines_lf s'
      else match lines_lf s' with
           | ln :: lns => (c :: ln) :: lns
           | [] => [[c]]
           end
  end.

(** A line of ten or more rule characters and nothing else. *)
Definition is_rule_line (ln : text) : bool :=
  (10 <=? length ln) && forallb (N.eqb RULE) ln.

Definition no_rule_line (block : text) : bool :=
  forallb (fun ln => negb (is_rule_line ln)) (lines_lf block).

(** A block the segmenter can give back: not blank, and with no line
    that a delimiter could be taken for. *)
Definition plain_block (block : text) : Prop :=
  nonempty (strip block) = true /\ no_rule_line block = true.

(** What is left of [s] after its leading run of [c], and the length
    of that run. *)
Fixpoint drop_run (c : N) (s : text) : text :=
  match s with
  | [] => []
  | x :: s' => if (c =? x)%N then drop_run c s' else s
  end.

Definition run_length (c : N) (s : text) : nat := length s - length (drop_run c s).

(** The first way the delimiter pattern matches at the start of [s],
    given by what it leaves: all the line feeds, all the rule
    characters, all the line feeds. *)
Definition rule_then_lf (s : text) : option text :=
  if 10 <=? run_length RULE s then
    match drop_run RULE s with
    | y :: s' => if (LF =? y)%N then Some (drop_run LF s') else None
    | [] => None
    end
  else None.

Definition delim_rest (s : text) : option text :=
  match s with
  | x :: s' => if (LF =? x)%N then rule_then_lf (drop_run LF s') else None
  | [] => None
  end.

(** [s] begins with a line of ten or more rule characters. *)
Definition rule_line_prefix (s : text) : bool :=
  (10 <=? run_length RULE s)
  && match drop_run RULE s with
     | [] => true
     | y :: _ => (LF =? y)%N
     end.

(** Some line feed of [s] is followed by such a line. *)
Fixpoint rule_line_inside (s : text) : bool :=
  match s with
  | [] => false
  | c :: s' => ((LF =? c)%N && rule_line_prefix s') || rule_line_inside s'
  end.

Definition all_lf (s : text) : bool := forallb (N.eqb LF) s.

(** [s] without its trailing line feeds. *)
Fixpoint rstrip_lf (s : text) : text :=
  match s with
  | [] => []
  | c :: s' => if all_lf s then [] else c :: rstrip_lf s'
  end.

(** The states a greedy run of [c] can end in, the longest first. *)
Fixpoint run_states (c : N) (pos : nat) (rest : text) (gs : list (nat * text))
  : list mstate :=
  let here := {| m_pos := pos; m_rest := rest; m_groups := gs |} in
  match rest with
  | x :: rest' =>
      if (c =? x)%N then run_states c (S pos) rest' gs ++ [here] else [here]
  | [] => [here]
  end.

(** The pieces [re.split] cuts [s] into at the delimiters, when the
    scanner is at offset [pos] with [gap] read since the last match. *)
Definition pieces (pos : nat) (s gap : text) : list text :=
  let '(found, tail) := scan DELIM_RE pos s 0 gap in
  map fst found ++ [tail].

(** Blocks and a delimiter for the examples. *)
Definition rule10 : text := repeat RULE 10.
Definition block_ending_in_rule : text := cps "a" ++ [LF] ++ rule10.
Definition two_blocks : list text := [cps " uno " ++ [LF]; [LF] ++ cps "dos"].




(** ** [questions_to_dicts], and definitions for further properties *)

(** An optional string as [asdict] leaves it. *)
Definition optional_str (o : option text) : json :=
  match o with
  | Some t => JStr t
  | None => JNull
  end.

Definition optional_int (o : option Z) : json :=
  match o with
  | Some z => JNum z
  | None => JNull
  end.

(** [asdict(opt)] *)
Definition option_to_dict (opt : AnswerOption) : json :=
  JObj [(cps "id", JStr (o_id opt)); (cps "text", JStr (o_text opt));
        (cps "linked_entity", optional_str (o_linked_entity opt))].

(** [asdict(q)]: the fields by name; dataclasses inside lists become
    dicts as well.  The order of the keys is not modelled. *)
Definition asdict (q : Question) : gmap text json :=
  list_to_map
    [(cps "id", JStr (q_id q));
     (cps "source_exam", JStr (q_source_exam q));
     (cps "year", optional_int (q_year q));
     (cps "number", JNum (q_number q));
     (cps "domain", optional_str (q_domain q));
     (cps "topic", optional_str (q_topic q));
     (cps "subtopic", optional_str (q_subtopic q));
     (cps "focus", optional_str (q_focus q));
     (stem_key, JStr (q_stem q));
     (cps "options", JArr (map option_to_dict (q_options q)));
     (cps "answer_key", JStr (q_answer_key q));
     (cps "answer_text", JStr (q_answer_text q));
     (entities_key, JArr (q_clinical_entities q));
     (cps "reasoning_tags", JArr (map JStr (q_reasoning_tags q)));
     (cps "metadata", JObj (map (fun kv => (fst kv, JStr (snd kv))) (q_metadata q)))].

Definition question_to_dict (q : Question) : gmap text json :=
  <[cps "options" := JArr (map option_to_dict (q_options q))]> (asdict q).

Definition questions_to_dicts (questions : list Question) : list (gmap text json) :=
  map question_to_dict questions.

(** Some code point of [s] is not white space. *)
Definition has_nonspace (s : text) : bool :=
  existsb (fun c => negb (isspace c)) s.

(** Neither empty nor with white space at either end. *)
Definition trimmed (s : text) : Prop := s ≠ [] /\ strip s = s.

(** Strictly ascending in the order of [sorted]. *)
Fixpoint ascending (ts : list text) : Prop :=
  match ts with
  | [] => True
  | t :: ts' =>
      match ts' with
      | [] => True
      | u :: _ => text_ltb t u = true
      end /\ ascending ts'
  end.

(** The match of "fiebre" at the start of the stem of the example. *)
Definition first_fever_match : Match :=
  {| mt_start := 0; mt_end := 6; mt_text := cps "fiebre"; mt_groups := [];
     mt_ngroups := 0 |}.

(** A parsed question for the examples. *)
Definition sample_block : text :=
  header_2023 ++ [LF] ++ cps "Subtema: Fiebre   tifoidea" ++ [LF]
  ++ cps "Paciente con fiebre de 3 " ++ dias ++ [LF]
  ++ cps "A) Uno" ++ [LF] ++ cps "B) Dos" ++ [LF]
  ++ cps "Respuesta correcta: B) Dos".

(** What is left of [s] after its leading code points that satisfy
    [ok]. *)
Fixpoint drop_while (ok : N -> bool) (s : text) : text :=
  match s with
  | [] => []
  | x :: s' => if ok x then drop_while ok s' else s
  end.

(** The states a greedy run of code points that satisfy [ok] can end
    in, the longest first. *)
Fixpoint ok_states (ok : N -> bool) (pos : nat) (rest : text)
  (gs : list (nat * text)) : list mstate :=
  let here := {| m_pos := pos; m_rest := rest; m_groups := gs |} in
  match rest with
  | x :: rest' =>
      if ok x then ok_states ok (S pos) rest' gs ++ [here] else [here]
  | [] => [here]
  end.

(** [s] with every run of white space replaced by one space;
    [in_space] tells that the code point before was white space. *)
Fixpoint collapse_from (in_space : bool) (s : text) : text :=
  match s with
  | [] => []
  | c :: s' =>
      if isspace c
      then if in_space then collapse_from true s'
           else SPACE :: collapse_from true s'
      else c :: collapse_from false s'
  end.

(** What [re.sub(r"\s+", " ", ...)] has built when the scanner is at
    offset [pos] with [gap] read since the last match. *)
Definition subbed (pos : nat) (s gap : text) : text :=
  let '(found, tail) := scan SPACES_RE pos s 0 gap in
  flat_map (fun gm => fst gm ++ cps " ") found ++ tail.

(** * Properties *)

(** ** The matcher *)

Lemma advances_refl (st : mstate) : advances st st [].
Proof. split; simpl; [done|lia]. Qed.

Lemma advances_trans (st1 st2 st3 : mstate) (c1 c2 : text) :
  advances st1 st2 c1 -> advances st2 st3 c2 -> advances st1 st3 (c1 ++ c2).
Proof.
  intros [H1 P1] [H2 P2]. split.
  - by rewrite H1, H2, app_assoc.
  - rewrite length_app. lia.
Qed.

Lemma step_char_spec (ok : N -> bool) (st st' : mstate) :
  In st' (step_char ok st) ->
  exists x, ok x = true /\ advances st st' [x] /\ m_groups st' = m_groups st.
Proof.
  unfold step_char. destruct (m_rest st) as [|x rest] eqn:E; [done|].
  destruct (ok x) eqn:Ex; [|done]. intros [<-|[]].
  exists x. repeat split; simpl; [done|done|lia].
Qed.

Lemma star_loop_advances (step : mstate -> list mstate) (fuel : nat) :
  (forall st st', In st' (step st) -> exists c, advances st st' c) ->
  forall st st', In st' (star_loop step fuel st) -> exists c, advances st st' c.
Proof.
  intros Hstep. induction fuel as [|fuel IH]; intros st st'; simpl.
  - intros [<-|[]]. eexists. apply advances_refl.
  - rewrite in_app_iff, in_flat_map. intros [(st1 & H1 & H2)|[<-|[]]].
    + destruct (m_pos st <? m_pos st1); [|done].
      destruct (Hstep _ _ H1) as [c1 A1]. destruct (IH _ _ H2) as [c2 A2].
      eexists. eapply advances_trans; eauto.
    + eexists. apply advances_refl.
Qed.

Lemma rmatch_advances (ic : bool) (r : regex) (st st' : mstate) :
  In st' (rmatch ic r st) -> exists c, advances st st' c.
Proof.
  revert st st'. induction r; intros st st'; cbn [rmatch].
  - intros [<-|[]]. eexists. apply advances_refl.
  - intros H. apply step_char_spec in H as (x & _ & A & _). eauto.
  - intros H. apply step_char_spec in H as (x & _ & A & _). eauto.
  - intros H. apply step_char_spec in H as (x & _ & A & _). eauto.
  - destruct (m_pos st =? 0); [|done]. intros [<-|[]].
    eexists. apply advances_refl.
  - destruct (m_rest st) as [|x [|y rest]]; try done.
    + intros [<-|[]]. eexists. apply advances_refl.
    + destruct (x =? LF)%N; [|done]. intros [<-|[]].
      eexists. apply advances_refl.
  - rewrite in_flat_map. intros (st1 & H1 & H2).
    destruct (IHr1 _ _ H1) as [c1 A1]. destruct (IHr2 _ _ H2) as [c2 A2].
    eexists. eapply advances_trans; eauto.
  - rewrite in_app_iff. intros [H|H]; eauto.
  - apply star_loop_advances. eauto.
  - rewrite in_map_iff. intros (st1 & <- & H1).
    destruct (IHr _ _ H1) as [c A]. exists c. exact A.
Qed.

Lemma star_loop_assoc (step : mstate -> list mstate) (i : nat) (fuel : nat) :
  (forall st st', In st' (step st) -> assoc i (m_groups st') = assoc i (m_groups st)) ->
  forall st st', In st' (star_loop step fuel st) ->
                 assoc i (m_groups st') = assoc i (m_groups st).
Proof.
  intros Hstep. induction fuel as [|fuel IH]; intros st st'; simpl.
  - by intros [<-|[]].
  - rewrite in_app_iff, in_flat_map. intros [(st1 & H1 & H2)|[<-|[]]]; [|done].
    destruct (m_pos st <? m_pos st1); [|done].
    rewrite (IH _ _ H2). eauto.
Qed.

(** A pattern leaves alone the groups it does not contain. *)
Lemma rmatch_assoc_other (ic : bool) (i : nat) (r : regex) (st st' : mstate) :
  has_group i r = false ->
  In st' (rmatch ic r st) ->
  assoc i (m_groups st') = assoc i (m_groups st).
Proof.
  revert st st'. induction r; intros st st' Hg; cbn [rmatch has_group] in *.
  - by intros [<-|[]].
  - intros H. apply step_char_spec in H as (x & _ & _ & ->). done.
  - intros H. apply step_char_spec in H as (x & _ & _ & ->). done.
  - intros H. apply step_char_spec in H as (x & _ & _ & ->). done.
  - destruct (m_pos st =? 0); [|done]. by intros [<-|[]].
  - destruct (m_rest st) as [|x [|y rest]]; try done.
    + by intros [<-|[]].
    + destruct (x =? LF)%N; [|done]. by intros [<-|[]].
  - apply orb_false_iff in Hg as [Hg1 Hg2].
    rewrite in_flat_map. intros (st1 & H1 & H2).
    rewrite (IHr2 _ _ Hg2 H2). eauto.
  - apply orb_false_iff in Hg as [Hg1 Hg2].
    rewrite in_app_iff. intros [H|H]; eauto.
  - apply star_loop_assoc. eauto.
  - apply orb_false_iff in Hg as [Hi Hg].
    rewrite in_map_iff. intros (st1 & <- & H1). simpl.
    rewrite Hi. eauto.
Qed.

(** A group holds the text read between its parentheses. *)
Lemma rmatch_group (ic : bool) (i : nat) (r : regex) (st st' : mstate) :
  In st' (rmatch ic (Group i r) st) ->
  exists st1 c, In st1 (rmatch ic r st) /\ advances st st1 c
    /\ advances st st' c /\ assoc i (m_groups st') = Some c.
Proof.
  cbn [rmatch]. rewrite in_map_iff. intros (st1 & <- & H1).
  destruct (rmatch_advances _ _ _ _ H1) as [c [Hr Hp]].
  exists st1, c. repeat split; try done. simpl.
  rewrite Nat.eqb_refl. f_equal.
  rewrite Hp, Hr. replace (m_pos st + length c - m_pos st) with (length c) by lia.
  by rewrite firstn_app, Nat.sub_diag, firstn_all, app_nil_r.
Qed.

(** A repeated class reads only code points of the class. *)
Lemma star_class_spec (ic negated : bool) (items : list cset) (fuel : nat)
  (st st' : mstate) :
  In st' (star_loop (rmatch ic (Class negated items)) fuel st) ->
  exists c, advances st st' c /\ forallb (class_mem ic negated items) c = true.
Proof.
  revert st. induction fuel as [|fuel IH]; intros st; simpl.
  - intros [<-|[]]. exists []. split; [apply advances_refl|done].
  - rewrite in_app_iff, in_flat_map. intros [(st1 & H1 & H2)|[<-|[]]].
    + destruct (m_pos st <? m_pos st1); [|done].
      apply step_char_spec in H1 as (x & Hx & A1 & _).
      destruct (IH _ H2) as (c & A2 & Hc).
      exists ([x] ++ c). split; [eapply advances_trans; eauto|].
      simpl. by rewrite Hx, Hc.
    + exists []. split; [apply advances_refl|done].
Qed.

Lemma plus_class_spec (ic negated : bool) (items : list cset) (st st' : mstate) :
  In st' (rmatch ic (Plus (Class negated items)) st) ->
  exists c, advances st st' c /\ c ≠ []
    /\ forallb (class_mem ic negated items) c = true.
Proof.
  unfold Plus. cbn [rmatch]. rewrite in_flat_map. intros (st1 & H1 & H2).
  apply step_char_spec in H1 as (x & Hx & A1 & _).
  apply star_class_spec in H2 as (c & A2 & Hc).
  exists ([x] ++ c). split; [eapply advances_trans; eauto|]. split; [done|].
  simpl. by rewrite Hx, Hc.
Qed.

Lemma re_match_In (p : pattern) (s : text) (m : Match) :
  re_match p s = Some m ->
  exists st, In st (rmatch (p_ignorecase p) (p_re p)
                           {| m_pos := 0; m_rest := s; m_groups := [] |})
    /\ mt_groups m = m_groups st.
Proof.
  unfold re_match, match_at.
  destruct (List.find _ _) as [st|] eqn:E; [|done].
  intros [= <-]. apply find_some in E as [E _]. eauto.
Qed.

(** ** The annotator *)

Lemma stem_key_ne_entities_key : stem_key ≠ entities_key.
Proof. discriminate. Qed.

Lemma inner_loop_appends (p : LoadedPattern) (ms : list Match) (items : list json) :
  for_fold (fun entities m => append entities (make_entity p m)) ms (JArr items)
  = Ok (JArr (items ++ map (make_entity p) ms)).
Proof.
  revert items. induction ms as [|m ms IH]; intros items; simpl.
  - by rewrite app_nil_r.
  - rewrite IH. by rewrite <- app_assoc.
Qed.

Lemma outer_loop_appends (patterns : list LoadedPattern) (s : text) (items : list json) :
  for_fold (fun entities pattern =>
              bind (finditer_json (lp_regex pattern) (JStr s))
                   (fun ms =>
                      for_fold (fun entities m =>
                                  append entities (make_entity pattern m))
                               ms entities))
           patterns (JArr items)
  = Ok (JArr (items ++ new_entities patterns s)).
Proof.
  revert items. induction patterns as [|p ps IH]; intros items; simpl.
  - by rewrite app_nil_r.
  - rewrite inner_loop_appends. simpl. rewrite IH.
    unfold new_entities. simpl. by rewrite <- app_assoc.
Qed.

(** With a string stem and a list of entities, one call appends the
    entities of one pass. *)
Lemma enrich_question_appends (question : gmap text json)
  (patterns : list LoadedPattern) (s : text) (old : list json) :
  question_text question = JStr s ->
  question_entities question = JArr old ->
  enrich_question question patterns
  = Ok (<[entities_key := JArr (old ++ new_entities patterns s)]> question).
Proof.
  intros Hs Ho. unfold enrich_question. rewrite Hs, Ho.
  by rewrite outer_loop_appends.
Qed.

(** With no pattern the loops do not run. *)
Lemma enrich_question_no_patterns (question : gmap text json) :
  enrich_question question []
  = Ok (<[entities_key := question_entities question]> question).
Proof. reflexivity. Qed.




(** The result of any call, whatever the question holds. *)
Lemma enrich_question_result (question : gmap text json)
  (patterns : list LoadedPattern) (q' : gmap text json) :
  enrich_question question patterns = Ok q' ->
  exists entities, q' = <[entities_key := entities]> question.
Proof.
  unfold enrich_question. intros H.
  destruct (for_fold _ patterns (question_entities question)) as [ents|e];
    simpl in H; [|discriminate].
  exists ents. congruence.
Qed.

(** Appending fails on anything but a list, and a loop that appended
    nothing leaves its value alone. *)
Lemma inner_loop_not_list (p : LoadedPattern) (ms : list Match) (v v' : json) :
  (forall items, v ≠ JArr items) ->
  for_fold (fun entities m => append entities (make_entity p m)) ms v = Ok v' ->
  ms = [] /\ v' = v.
Proof.
  intros Hv H. destruct ms as [|m ms]; simpl in H.
  - split; congruence.
  - destruct v; simpl in H; try discriminate. by destruct (Hv items).
Qed.

Lemma outer_loop_not_list (patterns : list LoadedPattern) (t v v' : json) :
  (forall items, v ≠ JArr items) ->
  for_fold (fun entities pattern =>
              bind (finditer_json (lp_regex pattern) t)
                   (fun ms =>
                      for_fold (fun entities m =>
                                  append entities (make_entity pattern m))
                               ms entities))
           patterns v = Ok v' ->
  v' = v.
Proof.
  intros Hv. induction patterns as [|p ps IH]; simpl; intros H.
  - congruence.
  - destruct (finditer_json (lp_regex p) t) as [ms|e]; simpl in H; [|discriminate].
    destruct (for_fold _ ms v) as [v1|e] eqn:E1; simpl in H; [|discriminate].
    apply inner_loop_not_list in E1 as [_ ->]; auto.
Qed.

Lemma outer_loop_list (patterns : list LoadedPattern) (t : json)
  (items : list json) (v' : json) :
  for_fold (fun entities pattern =>
              bind (finditer_json (lp_regex pattern) t)
                   (fun ms =>
                      for_fold (fun entities m =>
                                  append entities (make_entity pattern m))
                               ms entities))
           patterns (JArr items) = Ok v' ->
  exists added, v' = JArr (items ++ added)
    /\ forall items0,
        for_fold (fun entities pattern =>
                    bind (finditer_json (lp_regex pattern) t)
                         (fun ms =>
                            for_fold (fun entities m =>
                                        append entities (make_entity pattern m))
                                     ms entities))
                 patterns (JArr items0) = Ok (JArr (items0 ++ added)).
Proof.
  revert items. induction patterns as [|p ps IH]; simpl; intros items H.
  - exists []. split; [by inversion H; rewrite app_nil_r|].
    intros items0. by rewrite app_nil_r.
  - destruct (finditer_json (lp_regex p) t) as [ms|e]; simpl in *; [|discriminate].
    rewrite inner_loop_appends in H. simpl in H.
    apply IH in H as (added & -> & Hall).
    exists (map (make_entity p) ms ++ added). split.
    + by rewrite app_assoc.
    + intros items0. rewrite inner_loop_appends. simpl.
      rewrite Hall. by rewrite app_assoc.
Qed.

Lemma question_entities_insert (question : gmap text json) (items : list json) :
  question_entities (<[entities_key := JArr items]> question) = JArr items.
Proof.
  unfold question_entities. rewrite lookup_insert_eq. simpl.
  by destruct items.
Qed.

Lemma question_text_insert (question : gmap text json) (v : json) :
  question_text (<[entities_key := v]> question) = question_text question.
Proof.
  unfold question_text. rewrite lookup_insert_ne; [done|].
  apply not_eq_sym, stem_key_ne_entities_key.
Qed.

Lemma entity_count_insert (question : gmap text json) (items : list json) :
  entity_count (<[entities_key := JArr items]> question) = length items.
Proof. unfold entity_count. by rewrite lookup_insert_eq. Qed.

Lemma question_entities_count (question : gmap text json) (items : list json) :
  question_entities question = JArr items ->
  entity_count question = length items.
Proof.
  unfold question_entities, entity_count.
  destruct (question !! entities_key) as [v|]; simpl.
  - destruct (truthy v) eqn:E; intros H.
    + by subst v.
    + inversion H; subst. destruct v as [| | | |l|]; try done. by destruct l.
  - by intros [= <-].
Qed.

(** *** The scanner: matches from left to right *)

Lemma advances_lengths (st st' : mstate) (c : text) :
  advances st st' c ->
  m_pos st <= m_pos st'
  /\ m_pos st' + length (m_rest st') = m_pos st + length (m_rest st)
  /\ firstn (m_pos st' - m_pos st) (m_rest st) = c.
Proof.
  intros [Hr Hp]. rewrite Hr, Hp, length_app. repeat split; try lia.
  replace (m_pos st + length c - m_pos st) with (length c) by lia.
  by rewrite firstn_app, Nat.sub_diag, firstn_all, app_nil_r.
Qed.

Lemma flat_map_ext_In {A B} (f g : A -> list B) (xs : list A) :
  (forall x, In x xs -> f x = g x) -> flat_map f xs = flat_map g xs.
Proof.
  induction xs as [|x xs IH]; intros H; simpl; [done|].
  rewrite (H x) by (by left). rewrite IH; [done|]. intros y Hy. apply H. by right.
Qed.

(** Fuel beyond the length of the subject changes nothing: the loop
    of a repetition never runs out of it. *)
Lemma star_loop_fuel (step : mstate -> list mstate) :
  (forall st st', In st' (step st) -> exists c, advances st st' c) ->
  forall fuel1 fuel2 st,
    length (m_rest st) < fuel1 -> length (m_rest st) < fuel2 ->
    star_loop step fuel1 st = star_loop step fuel2 st.
Proof.
  intros Hstep. induction fuel1 as [|fuel1 IH]; intros [|fuel2] st H1 H2; try lia.
  cbn [star_loop]. f_equal. apply flat_map_ext_In. intros st' Hin.
  destruct (m_pos st <? m_pos st') eqn:E; [|done].
  apply Nat.ltb_lt in E. destruct (Hstep _ _ Hin) as [c A].
  apply advances_lengths in A as (_ & A & _). apply IH; lia.
Qed.

Lemma rmatch_star_fuel (ic : bool) (r : regex) (fuel : nat) (st : mstate) :
  length (m_rest st) < fuel ->
  star_loop (rmatch ic r) fuel st = rmatch ic (Star r) st.
Proof.
  intros H. cbn [rmatch]. apply star_loop_fuel; [|done|lia].
  intros st1 st2. apply rmatch_advances.
Qed.





Lemma scan_here (p : pattern) (pos : nat) (c : N) (rest gap : text) :
  scan p pos (c :: rest) 0 gap
  = match matches_here p pos (c :: rest) with
    | [] => scan p (S pos) rest 0 (c :: gap)
    | m :: ms =>
        let found := (rev gap, m) :: map (fun m' => ([], m')) ms in
        let k := last_end pos (m :: ms) - pos in
        let '(more, tail) :=
          match k with
          | O => scan p (S pos) rest 0 [c]
          | S k' => scan p (S pos) rest k' []
          end in
        (found ++ more, tail)
    end.
Proof. reflexivity. Qed.











(** C7: a call that succeeds produces some number [n] of entities, the
    next call on its result succeeds as well, and after it the question
    holds [2 * n] more entities than at the start: the count a single
    call produces is doubled, not left as it was. *)
Theorem annotation_accumulates (question : gmap text json)
  (patterns : list LoadedPattern) (q1 : gmap text json) :
  enrich_question question patterns = Ok q1 ->
  exists (q2 : gmap text json) (n : nat),
    enrich_question q1 patterns = Ok q2
    /\ entity_count q1 = entity_count question + n
    /\ entity_count q2 = entity_count question + 2 * n.
Proof.
  unfold enrich_question at 1. intros H.
  destruct (for_fold _ patterns (question_entities question)) as [ents|e] eqn:E;
    simpl in H; [|discriminate].
  injection H as <-.
  destruct (question_entities question) as [| | | |old|] eqn:Eq.
  5: {
    apply outer_loop_list in E as (added & -> & Hall).
    exists (<[entities_key := JArr ((old ++ added) ++ added)]>
              (<[entities_key := JArr (old ++ added)]> question)), (length added).
    split; [|split].
    - unfold enrich_question.
      rewrite question_entities_insert, question_text_insert, Hall. reflexivity.
    - rewrite entity_count_insert, (question_entities_count _ _ Eq), length_app. lia.
    - rewrite entity_count_insert, (question_entities_count _ _ Eq), !length_app. lia.
  }
  all: apply outer_loop_not_list in E as E'; [subst ents|done].
  all: assert (Hkeep : question !! entities_key = Some (question_entities question))
         by (revert Eq; unfold question_entities;
             destruct (question !! entities_key) as [v|]; simpl;
             [destruct (truthy v); congruence | discriminate]).
  all: rewrite Eq in Hkeep.
  all: rewrite (insert_id _ _ _ Hkeep).
  all: exists question, 0.
  all: split; [|lia].
  all: rewrite <- (insert_id _ _ _ Hkeep) at 2.
  all: unfold enrich_question; rewrite Eq, E; reflexivity.
Qed.

Lemma annotation_accumulates_witness :
  exists (q1 q2 : gmap text json),
    enrich_question fever_question [fever_pattern; duration_pattern] = Ok q1
    /\ enrich_question q1 [fever_pattern; duration_pattern] = Ok q2
    /\ entity_count fever_question = 0
    /\ entity_count q1 = 2
    /\ entity_count q2 = 4.
Proof.
  destruct (enrich_question fever_question [fever_pattern; duration_pattern])
    as [q1|e] eqn:E; [|vm_compute in E; discriminate].
  destruct (annotation_accumulates _ _ _ E) as (q2 & n & H2 & Hn1 & Hn2).
  exists q1, q2.
  assert (H1 : entity_count q1 = 2).
  { revert E. vm_compute. intros [= <-]. reflexivity. }
  assert (H0 : entity_count fever_question = 0) by reflexivity.
  repeat split; try done. lia.
Defined.

Lemma for_each_lookup {A B} (f : A -> result B) (xs : list A) (ys : list B) :
  for_each f xs = Ok ys ->
  length ys = length xs
  /\ forall i x, xs !! i = Some x -> exists y, ys !! i = Some y /\ f x = Ok y.
Proof.
  revert ys. induction xs as [|x xs IH]; simpl; intros ys H.
  - injection H as <-. split; [done|]. intros i x Hx. by destruct i.
  - destruct (f x) as [y|e] eqn:Ey; simpl in H; [|discriminate].
    destruct (for_each f xs) as [ys'|e]; simpl in H; [|discriminate].
    injection H as <-. destruct (IH ys' eq_refl) as [Hlen Hnth].
    split; [simpl; lia|]. intros [|i] x0 Hx; simpl in *.
    + injection Hx as <-. eauto.
    + eauto.
Qed.

(** C8: a call changes no key of the question other than
    "clinical_entities", so the stem and every other field are as they
    were; and the batch returns one question per input question, the
    [i]-th being the enrichment of the [i]-th. *)
Theorem enrich_question_frame (patterns : list LoadedPattern) :
  (forall (question q' : gmap text json),
      enrich_question question patterns = Ok q' ->
      q' !! stem_key = question !! stem_key
      /\ forall k, k ≠ entities_key -> q' !! k = question !! k)
  /\ (forall (questions enriched : list (gmap text json)),
        enrich_all questions patterns = Ok enriched ->
        length enriched = length questions
        /\ forall i q, questions !! i = Some q ->
             exists q', enriched !! i = Some q'
               /\ enrich_question q patterns = Ok q'
               /\ forall k, k ≠ entities_key -> q' !! k = q !! k).
Proof.
  assert (Hone : forall question q' : gmap text json,
             enrich_question question patterns = Ok q' ->
             forall k, k ≠ entities_key -> q' !! k = question !! k).
  { intros question q' H k Hk.
    apply enrich_question_result in H as [ents ->].
    by rewrite lookup_insert_ne. }
  split.
  - intros question q' H. split; [|by apply Hone].
    apply (Hone _ _ H), stem_key_ne_entities_key.
  - intros questions enriched H.
    apply for_each_lookup in H as [Hlen Hnth]. split; [done|].
    intros i q Hq. destruct (Hnth i q Hq) as (q' & Hi & Hq').
    exists q'. repeat split; try done. by apply Hone.
Qed.

Lemma enrich_question_frame_witness :
  exists enriched q1 q2,
    enrich_all [fever_question; plain_question] [fever_pattern; duration_pattern]
    = Ok enriched
    /\ enriched = [q1; q2]
    /\ q1 !! stem_key = Some (JStr fever_stem)
    /\ q2 !! stem_key = Some (JStr (cps "sin fiebre"))
    /\ q2 !! cps "id" = Some (JStr (cps "ENARM-2023-07")).
Proof.
  destruct (enrich_all [fever_question; plain_question]
                       [fever_pattern; duration_pattern]) as [enriched|e] eqn:E;
    [|vm_compute in E; discriminate].
  destruct (enrich_question_frame [fever_pattern; duration_pattern]) as [_ Hall].
  destruct (Hall _ _ E) as [Hlen Hnth].
  destruct (Hnth 0 fever_question eq_refl) as (q1 & H1 & _ & F1).
  destruct (Hnth 1 plain_question eq_refl) as (q2 & H2 & _ & F2).
  exists enriched, q1, q2. split; [done|].
  destruct enriched as [|x [|y [|z l]]]; simpl in Hlen; try discriminate.
  simpl in H1, H2. injection H1 as ->. injection H2 as ->.
  split; [done|]. rewrite (F1 stem_key), (F2 stem_key), (F2 (cps "id")); try discriminate.
  by repeat split.
Defined.



(** C9: [load_patterns] fails exactly when the source of some entry is
    not a regular expression; it then yields no list at all.  When it
    succeeds it yields the entries in their order, each unchanged and
    with its source compiled with IGNORECASE. *)
Theorem load_patterns_atomic (re_parse : text -> option regex)
  (data : list PatternSpec) :
  ((exists e, load_patterns re_parse data = Raise e)
   <-> exists item, In item data /\ re_parse (ps_pattern item) = None)
  /\ match load_patterns re_parse data with
     | Raise e => exists item, In item data /\ e = ReError (ps_pattern item)
     | Ok loaded =>
         map lp_spec loaded = data
         /\ Forall (fun lp => exists r,
                        re_parse (ps_pattern (lp_spec lp)) = Some r
                        /\ lp_regex lp = {| p_re := r; p_ignorecase := true |})
                   loaded
     end.
Proof.
  induction data as [|item data [IHiff IH]].
  - split; [split|]; simpl.
    + by intros [e H].
    + by intros (item & [] & _).
    + by split.
  - unfold load_patterns, re_compile in *. simpl.
    destruct (re_parse (ps_pattern item)) as [r|] eqn:Er; simpl.
    + destruct (for_each _ data) as [loaded|e]; simpl.
      * split.
        -- split; [by intros [e H]|].
           intros (it & [<-|Hin] & Hnone); [congruence|].
           destruct IHiff as [_ IHiff].
           destruct IHiff as [e He]; [eauto|discriminate].
        -- destruct IH as [IH1 IH2]. split; [by rewrite IH1|].
           constructor; [|done]. simpl. eauto.
      * split.
        -- split; [|eauto]. intros _.
           destruct IHiff as [IHiff _]. destruct IHiff as (it & Hin & Hn); eauto.
        -- destruct IH as (it & Hin & ->). eauto.
    + split.
      * split; [|eauto]. intros _. exists item. auto.
      * exists item. auto.
Qed.

(** ** The chunk parser *)

(** What a successful [parse_chunk] has computed. *)
Lemma parse_chunk_inv (chunk : text) (q : Question) :
  parse_chunk chunk = Ok q ->
  exists header_line number exam year,
    List.find is_header_line (chunk_lines chunk) = Some header_line
    /\ parse_header header_line = Ok (number, exam, year)
    /\ q_id q = make_id exam year number
    /\ q_source_exam q = exam /\ q_year q = year /\ q_number q = number
    /\ (let meta := fst (read_meta ∅ (after_first header_line (chunk_lines chunk))) in
        q_domain q = or_else (meta !! (a_acute :: cps "rea")) (meta !! cps "area")
        /\ q_topic q = meta !! cps "tema"
        /\ q_subtopic q = meta !! subtema
        /\ q_focus q = or_else (meta !! subtema_especifico_acute)
                               (meta !! subtema_especifico))
    /\ q_options q = read_options (option_lines header_line (chunk_lines chunk))
    /\ q_metadata q = [(cps "raw_header", header_line)]
    /\ q_clinical_entities q = [].
Proof.
  unfold parse_chunk, option_lines, lines_after_meta.
  destruct (List.find is_header_line (chunk_lines chunk)) as [h|]; [|discriminate].
  destruct (negb (nonempty h)); [discriminate|].
  destruct (parse_header h) as [[[number exam] year]|e] eqn:Eh; [|discriminate].
  cbn [bind].
  destruct (read_meta ∅ (after_first h (chunk_lines chunk))) as [meta rest] eqn:Em.
  destruct (read_stem (skip_blank rest)) as [stem_lines rest'] eqn:Es.
  destruct (read_answer (chunk_lines chunk)) as [answer_key answer_text].
  intros [= <-]. exists h, number, exam, year. cbn zeta.
  rewrite ?Em; cbn [fst snd]; rewrite ?Es; cbn [fst snd]. by repeat split.
Qed.

Lemma nat_digits_length (fuel : nat) (n : N) (acc : text) :
  length acc <= length (nat_digits fuel n acc).
Proof.
  revert n acc. induction fuel as [|fuel IH]; intros n acc; simpl; [lia|].
  destruct (n <? 10)%N; simpl; [lia|].
  etransitivity; [|apply IH]. simpl. lia.
Qed.

Lemma str_N_nonempty (n : N) : 1 <= length (str_N n).
Proof.
  unfold str_N. simpl. destruct (n <? 10)%N; simpl; [lia|].
  etransitivity; [|apply nat_digits_length]. simpl. lia.
Qed.

(** [{z:02d}] pads [str(z)] with zeros to width two. *)
Lemma format_02d_zero_pad (z : Z) : format_02d z = zero_pad 2 (str_int z).
Proof.
  unfold format_02d, str_int, zero_pad.
  pose proof (str_N_nonempty (Z.abs_N z)) as Hlen.
  destruct (z <? 0)%Z.
  - destruct (str_N (Z.abs_N z)) as [|d ds]; simpl in *; [lia|]. reflexivity.
  - destruct (str_N (Z.abs_N z)) as [|d [|d' ds]]; simpl in *; [lia| |]; reflexivity.
Qed.

Lemma make_id_spec (exam : text) (year : option Z) (number : Z) :
  year ≠ Some 0%Z ->
  make_id exam year number
  = spec_identifier (if nonempty exam then exam else cps "EXAM") year number.
Proof.
  intros Hy. unfold make_id, spec_identifier. rewrite format_02d_zero_pad.
  destruct year as [y|]; [|reflexivity].
  destruct (y =? 0)%Z eqn:E; [|reflexivity].
  apply Z.eqb_eq in E. congruence.
Qed.

(** C4 as stated fails: for the header "Pregunta 1 ( ):" the exam name
    is empty and the year absent, and the id is "EXAM-XXXX-01", not the
    empty name followed by "-XXXX-01". *)
Lemma empty_exam_id_counterexample :
  exists q, parse_chunk (cps "Pregunta 1 ( ):") = Ok q
    /\ q_source_exam q = [] /\ q_year q = None /\ q_number q = 1%Z
    /\ q_id q = cps "EXAM-XXXX-01"
    /\ spec_identifier (q_source_exam q) (q_year q) (q_number q) = cps "-XXXX-01"
    /\ q_id q ≠ spec_identifier (q_source_exam q) (q_year q) (q_number q).
Proof.
  eexists. split; [vm_compute; reflexivity|]. simpl.
  repeat split; try reflexivity. vm_compute. discriminate.
Qed.

(** C4, amended: the id of a parsed question is a function of
    (source_exam, year, number) alone; when the year is not 0 it is the
    exam name, or "EXAM" when that name is empty, in upper case without
    spaces, then "-", the year in decimal or "XXXX" when it is absent,
    then "-", and the number padded with zeros to two digits.
    ("ENARM", 2023, 7) gives "ENARM-2023-07" and ("X Y", none, 1) gives
    "XY-XXXX-01". *)
Theorem question_id_derivation (chunk : text) (q : Question) :
  parse_chunk chunk = Ok q ->
  q_id q = make_id (q_source_exam q) (q_year q) (q_number q)
  /\ (q_year q ≠ Some 0%Z ->
      q_id q = spec_identifier
                 (if nonempty (q_source_exam q) then q_source_exam q else cps "EXAM")
                 (q_year q) (q_number q))
  /\ make_id (cps "ENARM") (Some 2023%Z) 7 = cps "ENARM-2023-07"
  /\ make_id (cps "X Y") None 1 = cps "XY-XXXX-01".
Proof.
  intros H. apply parse_chunk_inv in H
    as (h & number & exam & year & _ & _ & Hid & <- & <- & <- & _).
  split; [done|]. split; [|by split].
  intros Hy. rewrite Hid. by apply make_id_spec.
Qed.

Lemma question_id_derivation_witness :
  exists q, parse_chunk (cps "Pregunta 7 (ENARM 2023):") = Ok q
    /\ q_id q = cps "ENARM-2023-07".
Proof.
  destruct (parse_chunk (cps "Pregunta 7 (ENARM 2023):")) as [q|e] eqn:E;
    [|vm_compute in E; discriminate].
  exists q. split; [done|].
  destruct (question_id_derivation _ _ E) as (Hid & _ & _).
  rewrite Hid. revert E. vm_compute. by intros [= <-].
Defined.

(** ** Strings *)

Ltac to_prop :=
  unfold in_range in *;
  repeat rewrite ?orb_true_iff, ?andb_true_iff, ?orb_false_iff, ?andb_false_iff,
    ?negb_true_iff, ?negb_false_iff, ?N.leb_le, ?N.leb_gt, ?N.eqb_eq, ?N.eqb_neq in *.

Lemma isspace_bound (c : N) :
  isspace c = true -> (c <= 32 \/ c = 133 \/ c = 160 \/ 5760 <= c)%N.
Proof. unfold isspace. to_prop. lia. Qed.



Lemma lstrip_app_nonspace (s : text) (c : N) :
  isspace c = false -> lstrip (s ++ [c]) = lstrip s ++ [c].
Proof.
  intros Hc. induction s as [|x s IH]; simpl.
  - by rewrite Hc.
  - destruct (isspace x); [done|reflexivity].
Qed.

Lemma rstrip_cons_nonspace (c : N) (s : text) :
  isspace c = false -> rstrip (c :: s) = c :: rstrip s.
Proof.
  intros Hc. unfold rstrip. simpl.
  rewrite lstrip_app_nonspace by done. by rewrite rev_app_distr.
Qed.

Lemma rstrip_app_nonspace (pre s : text) :
  forallb (fun c => negb (isspace c)) pre = true ->
  rstrip (pre ++ s) = pre ++ rstrip s.
Proof.
  induction pre as [|c pre IH]; simpl; [done|].
  rewrite andb_true_iff, negb_true_iff. intros [Hc Hpre].
  rewrite rstrip_cons_nonspace by done. by rewrite IH.
Qed.



Lemma strip_cons_nonspace (c : N) (s : text) :
  isspace c = false -> strip (c :: s) = c :: rstrip s.
Proof.
  intros Hc. unfold strip. simpl. rewrite Hc. by apply rstrip_cons_nonspace.
Qed.







(** A line that starts with "Pregunta" is not blank, so the lines kept
    from a block are its lines that are not blank. *)
Lemma chunk_lines_nonblank (chunk : text) :
  chunk_lines chunk
  = map rstrip (List.filter (fun ln => nonempty (strip ln)) (splitlines chunk)).
Proof.
  unfold chunk_lines. f_equal. apply filter_ext. intros ln.
  destruct (nonempty (strip ln)) eqn:E; [done|]. simpl.
  destruct (startswith (cps "Pregunta") ln) eqn:Es; [|done].
  destruct ln as [|c ln]; [done|]. change (cps "Pregunta") with (80%N :: cps "regunta") in Es.
  cbn [startswith] in Es. apply andb_true_iff in Es as [Hc _].
  apply N.eqb_eq in Hc. subst c.
  by rewrite strip_cons_nonspace in E.
Qed.



(** *** [int] on a run of digits *)


Lemma digit_not_space (c : N) : isdecimal c = true -> isspace c = false.
Proof.
  unfold isdecimal. intros H. destruct (isspace c) eqn:E; [|done].
  apply isspace_bound in E. to_prop. lia.
Qed.

Lemma strip_nonspace (s : text) :
  forallb (fun c => negb (isspace c)) s = true -> strip s = s.
Proof.
  intros H. destruct s as [|c s]; [done|].
  pose proof H as H'. simpl in H'. apply andb_true_iff in H' as [Hc Hs].
  apply negb_true_iff in Hc. rewrite strip_cons_nonspace by done. f_equal.
  rewrite <- (app_nil_r s) at 1. rewrite rstrip_app_nonspace by done.
  by rewrite app_nil_r.
Qed.


(** ** The patterns of the parser *)

Lemma rmatch_Cat (ic : bool) (r1 r2 : regex) (st st' : mstate) :
  In st' (rmatch ic (Cat r1 r2) st) ->
  exists st1, In st1 (rmatch ic r1 st) /\ In st' (rmatch ic r2 st1).
Proof. cbn [rmatch]. by rewrite in_flat_map. Qed.

(** The number of a header that matches is a run of digits. *)
Lemma header_number_digits (line : text) (m : Match) :
  re_match HEADER_RE line = Some m ->
  exists ds, group m 1 = Some ds /\ ds ≠ [] /\ forallb isdecimal ds = true.
Proof.
  intros H. apply re_match_In in H as (st & H & Hg).
  cbn [HEADER_RE p_re p_ignorecase Seq] in H.
  apply rmatch_Cat in H as (st1 & _ & H).
  apply rmatch_Cat in H as (st2 & _ & H).
  apply rmatch_Cat in H as (st3 & H3 & H).
  apply rmatch_group in H3 as (st3' & ds & Hds & A & _ & Hassoc).
  apply plus_class_spec in Hds as (ds' & A' & Hne & Hall).
  assert (ds' = ds) as ->.
  { destruct A as [A1 A2], A' as [A1' A2'].
    assert (length ds = length ds') by lia.
    rewrite A1 in A1'. by apply app_inj_1 in A1' as [-> _]. }
  apply (rmatch_assoc_other _ 1) in H as Hkeep; [|reflexivity].
  exists ds. unfold group. rewrite Hg, Hkeep.
  repeat split; try done.
  rewrite forallb_forall in *. intros c Hc. specialize (Hall c Hc).
  unfold class_mem in Hall. simpl in Hall. by rewrite orb_false_r in Hall.
Qed.





(** ** Metadata *)

Lemma read_meta_run (meta : gmap text text) (rest : list text) :
  fst (read_meta meta rest)
  = fold_left add_meta (take_while is_meta_line rest) meta.
Proof.
  revert meta. induction rest as [|ln rest IH]; intros meta; simpl; [done|].
  unfold is_meta_line.
  destruct (re_match META_RE (strip ln)) as [m|] eqn:E; simpl; [|done].
  rewrite IH. f_equal. unfold add_meta. by rewrite E.
Qed.

(** C2 as stated fails: in the block below a blank line separates the
    header from "Tema: Cardio", and the line is read as metadata all
    the same. *)
Lemma blank_line_before_metadata_counterexample :
  splitlines block_blank_before_meta
  = [header_2023; []; cps "Tema: Cardio"; cps "Texto"]
  /\ exists q, parse_chunk block_blank_before_meta = Ok q
       /\ q_topic q = Some (cps "Cardio").
Proof.
  split; [reflexivity|]. eexists. split; [vm_compute; reflexivity|reflexivity].
Qed.

(** C2, amended: blank lines are dropped from the block before
    anything is read.  Among the lines that remain, the metadata of a
    parsed question is that of the longest run of lines of the form
    [<Key>: <Value>] with a recognized key that follows the header
    line at once; a metadata line that comes after a line of another
    form is not read as metadata. *)
Theorem metadata_is_leading_run (chunk : text) (q : Question) :
  parse_chunk chunk = Ok q ->
  chunk_lines chunk
  = map rstrip (List.filter (fun ln => nonempty (strip ln)) (splitlines chunk))
  /\ exists header_line,
      List.find is_header_line (chunk_lines chunk) = Some header_line
      /\ (let following := after_first header_line (chunk_lines chunk) in
          let meta := fold_left add_meta (take_while is_meta_line following) ∅ in
          q_domain q = or_else (meta !! (a_acute :: cps "rea")) (meta !! cps "area")
          /\ q_topic q = meta !! cps "tema"
          /\ q_subtopic q = meta !! subtema
          /\ q_focus q = or_else (meta !! subtema_especifico_acute)
                                 (meta !! subtema_especifico))
      /\ (forall ln rest,
            after_first header_line (chunk_lines chunk) = ln :: rest ->
            is_meta_line ln = false ->
            q_domain q = None /\ q_topic q = None
            /\ q_subtopic q = None /\ q_focus q = None).
Proof.
  intros H. split; [apply chunk_lines_nonblank|].
  apply parse_chunk_inv in H
    as (h & number & exam & year & Hh & _ & _ & _ & _ & _ & Hmeta & _).
  cbn zeta in Hmeta. rewrite read_meta_run in Hmeta.
  exists h. split; [done|]. split; [exact Hmeta|].
  intros ln rest Hf Hln. rewrite Hf in Hmeta. simpl in Hmeta.
  rewrite Hln in Hmeta. simpl in Hmeta.
  destruct Hmeta as (-> & -> & -> & ->). by repeat split.
Qed.

Lemma metadata_is_leading_run_witness :
  exists q, parse_chunk block_text_before_meta = Ok q
    /\ after_first header_2023 (chunk_lines block_text_before_meta)
       = [cps "Texto"; cps "Tema: Cardio"]
    /\ q_topic q = None.
Proof.
  destruct (parse_chunk block_text_before_meta) as [q|e] eqn:E;
    [|vm_compute in E; discriminate].
  exists q. split; [done|]. split; [reflexivity|].
  destruct (metadata_is_leading_run _ _ E) as (_ & h & Hh & _ & Hstop).
  assert (h = header_2023) as ->
    by (vm_compute in Hh; injection Hh as <-; reflexivity).
  by destruct (Hstop (cps "Texto") [cps "Tema: Cardio"] eq_refl eq_refl)
    as (_ & -> & _).
Defined.

(** ** Options *)











(** ** The delimiter pattern *)

Lemma drop_run_split (c : N) (s : text) :
  s = repeat c (run_length c s) ++ drop_run c s.
Proof.
  unfold run_length. induction s as [|x s IH]; simpl; [done|].
  destruct (c =? x)%N eqn:E.
  - apply N.eqb_eq in E. subst x.
    assert (length (drop_run c s) <= length s).
    { clear. induction s as [|y s IH]; simpl; [lia|].
      destruct (c =? y)%N; simpl; lia. }
    replace (S (length s) - length (drop_run c s))
      with (S (length s - length (drop_run c s))) by lia.
    simpl. by rewrite <- IH.
  - simpl. by rewrite Nat.sub_diag.
Qed.

Lemma drop_run_length (c : N) (s : text) :
  length s = run_length c s + length (drop_run c s).
Proof.
  rewrite (drop_run_split c s) at 1. by rewrite length_app, repeat_length.
Qed.

Lemma run_length_cons_eq (c : N) (s : text) :
  run_length c (c :: s) = S (run_length c s).
Proof.
  pose proof (drop_run_length c s). unfold run_length in *. simpl.
  rewrite N.eqb_refl. lia.
Qed.

Lemma run_length_cons_ne (c x : N) (s : text) :
  (c =? x)%N = false -> run_length c (x :: s) = 0.
Proof. intros E. unfold run_length. simpl. rewrite E. simpl. lia. Qed.

Lemma run_length_nil (c : N) : run_length c [] = 0.
Proof. reflexivity. Qed.

Lemma rmatch_cat_eq (ic : bool) (r1 r2 : regex) (st : mstate) :
  rmatch ic (Cat r1 r2) st = flat_map (rmatch ic r2) (rmatch ic r1 st).
Proof. reflexivity. Qed.

Lemma rmatch_lit (c : N) (pos : nat) (rest : text) (gs : list (nat * text)) :
  rmatch false (Lit c) {| m_pos := pos; m_rest := rest; m_groups := gs |}
  = match rest with
    | x :: rest' =>
        if (c =? x)%N
        then [{| m_pos := S pos; m_rest := rest'; m_groups := gs |}]
        else []
    | [] => []
    end.
Proof. reflexivity. Qed.

Lemma star_lit_run (c : N) (gs : list (nat * text)) (rest : text) :
  forall fuel pos,
    length rest < fuel ->
    star_loop (rmatch false (Lit c)) fuel
              {| m_pos := pos; m_rest := rest; m_groups := gs |}
    = run_states c pos rest gs.
Proof.
  induction rest as [|x rest IH]; intros [|fuel] pos Hf; simpl in Hf; try lia.
  - reflexivity.
  - cbn [star_loop run_states]. rewrite rmatch_lit.
    destruct (c =? x)%N; [|reflexivity].
    cbn [flat_map m_pos]. rewrite app_nil_r.
    replace (pos <? S pos) with true by (symmetry; apply Nat.ltb_lt; lia).
    rewrite IH by lia. reflexivity.
Qed.

(** A continuation that cannot start with [c] only succeeds after the
    whole run of [c]. *)
Lemma flat_map_run_states (c : N) (gs : list (nat * text))
  (f : mstate -> list mstate) (rest : text) :
  (forall pos' rest',
      f {| m_pos := pos'; m_rest := c :: rest'; m_groups := gs |} = []) ->
  forall pos,
    flat_map f (run_states c pos rest gs)
    = f {| m_pos := pos + run_length c rest; m_rest := drop_run c rest;
           m_groups := gs |}.
Proof.
  intros Hf. induction rest as [|x rest IH]; intros pos.
  - simpl. rewrite run_length_nil, Nat.add_0_r. by rewrite app_nil_r.
  - cbn [run_states drop_run]. destruct (c =? x)%N eqn:E.
    + apply N.eqb_eq in E. subst x. rewrite flat_map_app. simpl.
      rewrite Hf, app_nil_r, IH, run_length_cons_eq. f_equal. f_equal. lia.
    + simpl. rewrite (run_length_cons_ne _ _ _ E), Nat.add_0_r.
      by rewrite app_nil_r.
Qed.

Lemma head_run_states (c : N) (gs : list (nat * text)) (rest : text) (pos : nat) :
  head (run_states c pos rest gs)
  = Some {| m_pos := pos + run_length c rest; m_rest := drop_run c rest;
            m_groups := gs |}.
Proof.
  revert pos. induction rest as [|x rest IH]; intros pos.
  - simpl. by rewrite run_length_nil, Nat.add_0_r.
  - cbn [run_states drop_run]. destruct (c =? x)%N eqn:E.
    + apply N.eqb_eq in E. subst x.
      specialize (IH (S pos)). destruct (run_states c (S pos) rest gs); [done|].
      simpl in *. rewrite IH, run_length_cons_eq. do 2 f_equal. lia.
    + simpl. by rewrite (run_length_cons_ne _ _ _ E), Nat.add_0_r.
Qed.

Lemma rmatch_star_lit (c : N) (pos : nat) (rest : text) (gs : list (nat * text)) :
  rmatch false (Star (Lit c)) {| m_pos := pos; m_rest := rest; m_groups := gs |}
  = run_states c pos rest gs.
Proof. cbn [rmatch m_rest]. apply star_lit_run. lia. Qed.

Lemma rmatch_plus_lit (c : N) (pos : nat) (rest : text) (gs : list (nat * text)) :
  rmatch false (Plus (Lit c)) {| m_pos := pos; m_rest := rest; m_groups := gs |}
  = match rest with
    | x :: rest' => if (c =? x)%N then run_states c (S pos) rest' gs else []
    | [] => []
    end.
Proof.
  unfold Plus. rewrite rmatch_cat_eq, rmatch_lit.
  destruct rest as [|x rest]; [done|]. destruct (c =? x)%N; [|done].
  cbn [flat_map]. rewrite app_nil_r. apply rmatch_star_lit.
Qed.

Lemma rmatch_at_least_lit (c : N) (gs : list (nat * text)) (n : nat) :
  forall pos rest,
    rmatch false (AtLeast n (Lit c))
           {| m_pos := pos; m_rest := rest; m_groups := gs |}
    = if n <=? run_length c rest
      then run_states c (pos + n) (skipn n rest) gs
      else [].
Proof.
  induction n as [|n IH]; intros pos rest.
  - cbn [AtLeast]. rewrite rmatch_star_lit. simpl. by rewrite Nat.add_0_r.
  - cbn [AtLeast]. rewrite rmatch_cat_eq, rmatch_lit.
    destruct rest as [|x rest]; [done|]. destruct (c =? x)%N eqn:E.
    + apply N.eqb_eq in E. subst x. cbn [flat_map]. rewrite app_nil_r, IH.
      rewrite run_length_cons_eq. simpl.
      replace (pos + S n) with (S pos + n) by lia. reflexivity.
    + rewrite (run_length_cons_ne _ _ _ E). reflexivity.
Qed.

Lemma drop_run_skipn (c : N) (n : nat) (s : text) :
  n <= run_length c s -> drop_run c (skipn n s) = drop_run c s.
Proof.
  revert s. induction n as [|n IH]; intros s Hn; [done|].
  destruct s as [|x s]; [done|]. simpl. destruct (c =? x)%N eqn:E.
  - apply N.eqb_eq in E. subst x. rewrite run_length_cons_eq in Hn.
    apply IH. lia.
  - rewrite (run_length_cons_ne _ _ _ E) in Hn. lia.
Qed.

(** The first match of the delimiter pattern at the start of [rest]
    leaves [delim_rest rest]; there is no match when that is [None]. *)
Lemma rmatch_delim (pos : nat) (rest : text) :
  match delim_rest rest with
  | Some r =>
      exists p, head (rmatch false (p_re DELIM_RE)
                             {| m_pos := pos; m_rest := rest; m_groups := [] |})
                = Some {| m_pos := p; m_rest := r; m_groups := [] |}
  | None =>
      rmatch false (p_re DELIM_RE)
             {| m_pos := pos; m_rest := rest; m_groups := [] |} = []
  end.
Proof.
  cbn [DELIM_RE p_re Seq]. rewrite rmatch_cat_eq, rmatch_plus_lit.
  unfold delim_rest. destruct rest as [|x rest]; [done|].
  destruct (LF =? x)%N; [|done].
  rewrite flat_map_run_states.
  2: { intros pos' rest'. rewrite rmatch_cat_eq, rmatch_at_least_lit.
       by rewrite run_length_cons_ne. }
  rewrite rmatch_cat_eq, rmatch_at_least_lit. unfold rule_then_lf.
  set (s1 := drop_run LF rest).
  destruct (10 <=? run_length RULE s1) eqn:E10; [|done].
  apply Nat.leb_le in E10.
  rewrite flat_map_run_states.
  2: { intros pos' rest'. rewrite rmatch_plus_lit. reflexivity. }
  rewrite rmatch_plus_lit, (drop_run_skipn _ _ _ E10).
  destruct (drop_run RULE s1) as [|y s2]; [done|].
  destruct (LF =? y)%N; [|done].
  rewrite head_run_states. eauto.
Qed.

Lemma drop_run_shorter (c : N) (s : text) : length (drop_run c s) <= length s.
Proof. pose proof (drop_run_length c s). lia. Qed.

Lemma delim_rest_shorter (s r : text) :
  delim_rest s = Some r -> length r < length s.
Proof.
  unfold delim_rest, rule_then_lf. destruct s as [|x s]; [done|].
  destruct (LF =? x)%N; [|done].
  destruct (10 <=? _); [|done].
  pose proof (drop_run_shorter LF s).
  pose proof (drop_run_shorter RULE (drop_run LF s)).
  destruct (drop_run RULE (drop_run LF s)) as [|y s'] eqn:E; [done|].
  destruct (LF =? y)%N; [|done]. intros [= <-].
  pose proof (drop_run_shorter LF s'). simpl in *. lia.
Qed.

Lemma find_all {A} (p : A -> bool) (xs : list A) :
  (forall x, p x = true) -> List.find p xs = head xs.
Proof. intros Hp. destruct xs as [|x xs]; simpl; [done|]. by rewrite Hp. Qed.

(** The matches of the delimiter pattern at one offset: none, or the
    one that leaves [delim_rest]. *)
Lemma matches_here_delim (pos : nat) (rest : text) :
  match delim_rest rest with
  | Some r =>
      exists m x, matches_here DELIM_RE pos rest = [m]
        /\ rest = x ++ r /\ x ≠ [] /\ mt_end m = pos + length x
  | None => matches_here DELIM_RE pos rest = []
  end.
Proof.
  pose proof (rmatch_delim pos rest) as H.
  unfold matches_here, match_at. rewrite find_all by done.
  change (p_ignorecase DELIM_RE) with false.
  destruct (delim_rest rest) as [r|] eqn:E.
  - destruct H as [p H]. rewrite H. cbn [mt_end m_pos].
    apply delim_rest_shorter in E.
    assert (Hin : In {| m_pos := p; m_rest := r; m_groups := [] |}
                     (rmatch false (p_re DELIM_RE)
                             {| m_pos := pos; m_rest := rest; m_groups := [] |})).
    { destruct (rmatch false _ _) as [|st l]; [done|].
      injection H as ->. by left. }
    apply rmatch_advances in Hin as (x & Hx & Hp). simpl in Hx, Hp.
    assert (x ≠ []) by (intros ->; subst rest; simpl in E; lia).
    assert (length x <> 0) by (by destruct x).
    replace (p =? pos) with false by (symmetry; apply Nat.eqb_neq; lia).
    eexists _, x. by repeat split.
  - by rewrite H.
Qed.

Lemma scan_skip (p : pattern) (x rest gap : text) (pos : nat) :
  scan p pos (x ++ rest) (length x) gap = scan p (pos + length x) rest 0 gap.
Proof.
  revert pos. induction x as [|c x IH]; intros pos.
  - simpl. by rewrite Nat.add_0_r.
  - cbn [app length scan]. rewrite IH. f_equal. lia.
Qed.

Lemma pieces_nil (pos : nat) (gap : text) : pieces pos [] gap = [rev gap].
Proof. reflexivity. Qed.

Lemma pieces_no_match (pos : nat) (c : N) (s gap : text) :
  delim_rest (c :: s) = None ->
  pieces pos (c :: s) gap = pieces (S pos) s (c :: gap).
Proof.
  intros E. unfold pieces. rewrite scan_here.
  pose proof (matches_here_delim pos (c :: s)) as H. rewrite E in H.
  by rewrite H.
Qed.

Lemma pieces_match (pos : nat) (s r gap : text) :
  delim_rest s = Some r ->
  exists pos', pieces pos s gap = rev gap :: pieces pos' r [].
Proof.
  intros E. pose proof (matches_here_delim pos s) as H. rewrite E in H.
  destruct H as (m & x & Hm & -> & Hx & Hend).
  destruct x as [|c x]; [done|].
  exists (S pos + length x). unfold pieces. cbn [app]. rewrite scan_here.
  cbn [app] in Hm. rewrite Hm. cbn [last_end rev app map].
  rewrite Hend. cbn [length].
  replace (pos + S (length x) - pos) with (S (length x)) by lia.
  cbv zeta iota beta. rewrite scan_skip.
  destruct (scan DELIM_RE (S pos + length x) r 0 []) as [more tail].
  reflexivity.
Qed.

(** ** Blocks between delimiters *)

Local Arguments N.eqb : simpl never.

Lemma all_lf_cons (x : N) (u : text) :
  all_lf (x :: u) = (LF =? x)%N && all_lf u.
Proof. reflexivity. Qed.

Lemma LF_ne_RULE : (RULE =? LF)%N = false.
Proof. reflexivity. Qed.

Lemma drop_run_app_stop (c y : N) (u t : text) :
  (c =? y)%N = false -> drop_run c (u ++ y :: t) = drop_run c u ++ y :: t.
Proof.
  intros Hy. induction u as [|x u IH]; simpl.
  - by rewrite Hy.
  - destruct (c =? x)%N; [done|reflexivity].
Qed.

Lemma run_length_app_stop (c y : N) (u t : text) :
  (c =? y)%N = false -> run_length c (u ++ y :: t) = run_length c u.
Proof.
  intros Hy. unfold run_length.
  rewrite drop_run_app_stop, !length_app by done.
  pose proof (drop_run_shorter c u). lia.
Qed.

Lemma rule_then_lf_app (u t : text) :
  rule_line_prefix u = false -> rule_then_lf (u ++ LF :: t) = None.
Proof.
  unfold rule_line_prefix, rule_then_lf.
  rewrite run_length_app_stop, drop_run_app_stop by apply LF_ne_RULE.
  destruct (10 <=? run_length RULE u); [|done]. simpl.
  destruct (drop_run RULE u) as [|y s]; [done|]. simpl. by intros ->.
Qed.

Lemma rule_then_lf_alone (u : text) :
  rule_line_prefix u = false -> rule_then_lf u = None.
Proof.
  unfold rule_line_prefix, rule_then_lf.
  destruct (10 <=? run_length RULE u); [|done]. simpl.
  destruct (drop_run RULE u) as [|y s]; [done|]. by intros ->.
Qed.

Lemma rule_line_inside_cons (x : N) (u : text) :
  rule_line_inside (x :: u) = false ->
  ((LF =? x)%N = true -> rule_line_prefix u = false)
  /\ rule_line_inside u = false.
Proof.
  simpl. rewrite orb_false_iff, andb_false_iff.
  intros [[H|H] Hi]; split; try done. intros E. congruence.
Qed.

Lemma after_lf_run_app (t u : text) :
  rule_line_prefix u = false -> rule_line_inside u = false -> all_lf u = false ->
  rule_then_lf (drop_run LF (u ++ LF :: t)) = None.
Proof.
  induction u as [|x u IH]; intros Hp Hi Ha; [done|].
  simpl. destruct (LF =? x)%N eqn:E.
  - apply rule_line_inside_cons in Hi as [Hp' Hi'].
    rewrite all_lf_cons, E in Ha. apply IH; auto.
  - by apply (rule_then_lf_app (x :: u)).
Qed.

Lemma after_lf_run_alone (u : text) :
  rule_line_prefix u = false -> rule_line_inside u = false ->
  rule_then_lf (drop_run LF u) = None.
Proof.
  induction u as [|x u IH]; intros Hp Hi; [done|].
  simpl. destruct (LF =? x)%N eqn:E.
  - apply rule_line_inside_cons in Hi as [Hp' Hi']. apply IH; auto.
  - by apply rule_then_lf_alone.
Qed.

(** Inside a block with no rule line the delimiter pattern matches
    nowhere, up to the trailing line feeds of the block. *)
Lemma delim_rest_inside (u t : text) :
  rule_line_inside u = false -> all_lf u = false ->
  delim_rest (u ++ LF :: t) = None.
Proof.
  intros Hi Ha. destruct u as [|x u]; [done|].
  simpl. destruct (LF =? x)%N eqn:E; [|done].
  apply rule_line_inside_cons in Hi as [Hp Hi].
  rewrite all_lf_cons, E in Ha. apply after_lf_run_app; auto.
Qed.

Lemma delim_rest_alone (u : text) :
  rule_line_inside u = false -> delim_rest u = None.
Proof.
  intros Hi. destruct u as [|x u]; [done|].
  simpl. destruct (LF =? x)%N eqn:E; [|done].
  apply rule_line_inside_cons in Hi as [Hp Hi].
  apply after_lf_run_alone; auto.
Qed.

Lemma drop_run_repeat (c : N) (n : nat) (s : text) :
  drop_run c (repeat c n ++ s) = drop_run c s.
Proof. induction n as [|n IH]; simpl; [done|]. by rewrite N.eqb_refl. Qed.

Lemma run_length_repeat (c : N) (n : nat) (s : text) :
  run_length c (repeat c n ++ s) = n + run_length c s.
Proof.
  induction n as [|n IH]; [done|].
  cbn [repeat app]. rewrite run_length_cons_eq, IH. lia.
Qed.

Lemma all_lf_repeat (u : text) : all_lf u = true -> u = repeat LF (length u).
Proof.
  induction u as [|x u IH]; [done|].
  rewrite all_lf_cons, andb_true_iff, N.eqb_eq. intros [<- H].
  simpl. by rewrite <- IH.
Qed.

(** At the trailing line feeds of a block the pattern matches, and
    takes the delimiter and the line feeds that follow it. *)
Lemma delim_rest_at_delimiter (u t : text) (a k c : nat) :
  all_lf u = true ->
  delim_rest (u ++ delimiter a k c ++ t) = Some (drop_run LF t).
Proof.
  intros Hu. unfold delimiter.
  assert (Hstart : exists n, u ++ (repeat LF (S a) ++ repeat RULE (10 + k)
                                   ++ repeat LF (S c)) ++ t
                   = LF :: repeat LF n ++ repeat RULE (10 + k)
                        ++ LF :: repeat LF c ++ t).
  { exists (length u + a). rewrite (all_lf_repeat _ Hu) at 1.
    rewrite <- !app_assoc, app_assoc, <- repeat_app.
    replace (length u + S a) with (S (length u + a)) by lia.
    reflexivity. }
  destruct Hstart as [n ->]. unfold delim_rest.
  rewrite N.eqb_refl, drop_run_repeat. unfold rule_then_lf.
  assert (Hrule : drop_run LF (repeat RULE (10 + k) ++ LF :: repeat LF c ++ t)
                  = repeat RULE (10 + k) ++ LF :: repeat LF c ++ t) by reflexivity.
  rewrite Hrule, run_length_repeat, drop_run_repeat.
  replace (10 <=? 10 + k + _) with true by (symmetry; apply Nat.leb_le; lia).
  cbn [drop_run]. rewrite LF_ne_RULE, N.eqb_refl.
  by rewrite drop_run_repeat.
Qed.

Lemma rstrip_lf_cons (x : N) (b : text) :
  all_lf (x :: b) = false -> rstrip_lf (x :: b) = x :: rstrip_lf b.
Proof. intros H. cbn [rstrip_lf]. by rewrite H. Qed.

Lemma rstrip_lf_all (b : text) : all_lf b = true -> rstrip_lf b = [].
Proof. intros H. destruct b; [done|]. cbn [rstrip_lf]. by rewrite H. Qed.

(** Scanning a block that is followed by a delimiter. *)
Lemma pieces_block (t : text) (a k c : nat) (b : text) :
  rule_line_inside b = false ->
  forall pos gap,
    exists pos',
      pieces pos (b ++ delimiter a k c ++ t) gap
      = (rev gap ++ rstrip_lf b) :: pieces pos' (drop_run LF t) [].
Proof.
  induction b as [|x b IH]; intros Hi pos gap.
  - destruct (pieces_match pos _ _ gap (delim_rest_at_delimiter [] t a k c eq_refl))
      as [pos' H].
    exists pos'. simpl in *. by rewrite app_nil_r.
  - destruct (all_lf (x :: b)) eqn:Ha.
    + destruct (pieces_match pos _ _ gap
                  (delim_rest_at_delimiter (x :: b) t a k c Ha)) as [pos' H].
      exists pos'. rewrite H, rstrip_lf_all by done. by rewrite app_nil_r.
    + pose proof (delim_rest_inside (x :: b)
                    (repeat LF a ++ repeat RULE (10 + k) ++ repeat LF (S c) ++ t)
                    Hi Ha) as Hnone.
      assert (Heq : (x :: b) ++ delimiter a k c ++ t
                    = x :: (b ++ delimiter a k c ++ t)) by reflexivity.
      assert (Heq' : (x :: b) ++ LF :: repeat LF a ++ repeat RULE (10 + k)
                                 ++ repeat LF (S c) ++ t
                     = x :: (b ++ delimiter a k c ++ t)).
      { unfold delimiter. cbn [repeat app]. by rewrite <- !app_assoc. }
      rewrite Heq' in Hnone. rewrite Heq, (pieces_no_match _ _ _ _ Hnone).
      apply rule_line_inside_cons in Hi as [_ Hi].
      destruct (IH Hi (S pos) (x :: gap)) as [pos' H].
      exists pos'. rewrite H, rstrip_lf_cons by done.
      simpl. by rewrite <- app_assoc.
Qed.

(** Scanning the last block. *)
Lemma pieces_last (b : text) :
  rule_line_inside b = false ->
  forall pos gap, pieces pos b gap = [rev gap ++ b].
Proof.
  induction b as [|x b IH]; intros Hi pos gap.
  - rewrite pieces_nil. by rewrite app_nil_r.
  - rewrite (pieces_no_match _ _ _ _ (delim_rest_alone _ Hi)).
    apply rule_line_inside_cons in Hi as [_ Hi].
    rewrite IH by done. simpl. by rewrite <- app_assoc.
Qed.

Lemma lstrip_drop_run (b : text) : lstrip (drop_run LF b) = lstrip b.
Proof.
  induction b as [|x b IH]; [done|].
  cbn [drop_run]. destruct (LF =? x)%N eqn:E; [|done].
  apply N.eqb_eq in E. subst x. by rewrite IH.
Qed.

Lemma strip_drop_run (b : text) : strip (drop_run LF b) = strip b.
Proof. unfold strip. by rewrite lstrip_drop_run. Qed.

Lemma lstrip_app_space (y : text) (c : N) :
  isspace c = true ->
  lstrip (y ++ [c]) = match lstrip y with [] => [] | _ :: _ => lstrip y ++ [c] end.
Proof.
  intros Hc. induction y as [|x y IH]; simpl.
  - by rewrite Hc.
  - destruct (isspace x); [done|reflexivity].
Qed.

Lemma rstrip_app_space (y : text) (c : N) :
  isspace c = true -> rstrip (y ++ [c]) = rstrip y.
Proof.
  intros Hc. unfold rstrip. rewrite rev_app_distr. simpl. by rewrite Hc.
Qed.

Lemma strip_app_space (y : text) (c : N) :
  isspace c = true -> strip (y ++ [c]) = strip y.
Proof.
  intros Hc. unfold strip. rewrite lstrip_app_space by done.
  destruct (lstrip y) as [|x l]; [done|]. by apply rstrip_app_space.
Qed.

Lemma strip_app_lf (y : text) (n : nat) : strip (y ++ repeat LF n) = strip y.
Proof.
  induction n as [|n IH]; [by rewrite app_nil_r|].
  cbn [repeat]. rewrite repeat_cons, app_assoc, strip_app_space by done. exact IH.
Qed.

Lemma rstrip_lf_split (b : text) : exists n, b = rstrip_lf b ++ repeat LF n.
Proof.
  induction b as [|x b [n IH]]; [by exists 0|].
  destruct (all_lf (x :: b)) eqn:E.
  - exists (length (x :: b)). rewrite rstrip_lf_all by done.
    by apply all_lf_repeat.
  - exists n. rewrite rstrip_lf_cons by done. simpl. by rewrite <- IH.
Qed.

Lemma strip_rstrip_lf (b : text) : strip (rstrip_lf b) = strip b.
Proof.
  destruct (rstrip_lf_split b) as [n H]. rewrite H at 2.
  by rewrite strip_app_lf.
Qed.

Lemma nonblank_not_all_lf (b : text) :
  nonempty (strip b) = true -> all_lf b = false.
Proof.
  intros H. destruct (all_lf b) eqn:E; [|done].
  rewrite (all_lf_repeat _ E) in H.
  change (repeat LF (length b)) with ([] ++ repeat LF (length b)) in H.
  by rewrite strip_app_lf in H.
Qed.

Lemma all_lf_drop_run (b : text) :
  all_lf b = false -> all_lf (drop_run LF b) = false.
Proof.
  induction b as [|x b IH]; [done|].
  rewrite all_lf_cons. cbn [drop_run].
  destruct (LF =? x)%N eqn:E; simpl; [exact IH|].
  intros _. by rewrite E.
Qed.

Lemma rule_line_inside_drop_run (b : text) :
  rule_line_inside b = false -> rule_line_inside (drop_run LF b) = false.
Proof.
  induction b as [|x b IH]; [done|]. intros H.
  cbn [drop_run]. destruct (LF =? x)%N; [|done].
  apply rule_line_inside_cons in H as [_ H]. auto.
Qed.

Lemma drop_run_app (b t : text) :
  all_lf b = false -> drop_run LF (b ++ t) = drop_run LF b ++ t.
Proof.
  induction b as [|x b IH]; [done|].
  rewrite all_lf_cons. cbn [app drop_run].
  destruct (LF =? x)%N; simpl; [exact IH|done].
Qed.

(** *** Lines and rule lines *)

Lemma lines_lf_cons (s : text) : exists ln lns, lines_lf s = ln :: lns.
Proof.
  destruct s as [|c s]; simpl; [eauto|].
  destruct (c =? LF)%N; [eauto|]. destruct (lines_lf s); eauto.
Qed.

Lemma lines_lf_rule_run (n : nat) (r : text) :
  (r = [] \/ exists r', r = LF :: r') ->
  exists lns, lines_lf (repeat RULE n ++ r) = repeat RULE n :: lns.
Proof.
  intros Hr. induction n as [|n [lns IH]].
  - destruct Hr as [->|[r' ->]]; simpl; eauto.
  - cbn [repeat app lines_lf]. rewrite LF_ne_RULE, IH. eauto.
Qed.

Lemma rule_line_prefix_line (s : text) :
  rule_line_prefix s = true ->
  exists ln lns, lines_lf s = ln :: lns /\ is_rule_line ln = true.
Proof.
  unfold rule_line_prefix. rewrite andb_true_iff. intros [Hn Hr].
  rewrite (drop_run_split RULE s).
  destruct (lines_lf_rule_run (run_length RULE s) (drop_run RULE s)) as [lns H].
  { destruct (drop_run RULE s) as [|y r]; [by left|right].
    apply N.eqb_eq in Hr. subst y. eauto. }
  exists (repeat RULE (run_length RULE s)), lns. split; [done|].
  unfold is_rule_line. rewrite repeat_length, Hn. simpl.
  clear. induction (run_length RULE s) as [|n IH]; [done|].
  cbn [repeat forallb]. by rewrite N.eqb_refl.
Qed.

Lemma rule_line_inside_line (b : text) :
  rule_line_inside b = true ->
  exists ln, In ln (tl (lines_lf b)) /\ is_rule_line ln = true.
Proof.
  induction b as [|c b IH]; [done|].
  cbn [rule_line_inside lines_lf]. rewrite orb_true_iff, andb_true_iff.
  intros [[Hc Hp]|Hi].
  - apply N.eqb_eq in Hc. subst c. rewrite N.eqb_refl. cbn [tl].
    destruct (rule_line_prefix_line _ Hp) as (ln & lns & -> & Hln).
    exists ln. split; [by left|done].
  - destruct (IH Hi) as (ln & Hin & Hln). exists ln. split; [|done].
    destruct (c =? LF)%N; simpl.
    + destruct (lines_lf b); [done|]. by right.
    + by destruct (lines_lf b).
Qed.

Lemma no_rule_line_inside (b : text) :
  no_rule_line b = true -> rule_line_inside b = false.
Proof.
  intros H. destruct (rule_line_inside b) eqn:E; [|done].
  destruct (rule_line_inside_line _ E) as (ln & Hin & Hln).
  unfold no_rule_line in H. rewrite forallb_forall in H.
  assert (Hin' : In ln (lines_lf b)) by (destruct (lines_lf b); [done|by right]).
  apply H in Hin'. by rewrite Hln in Hin'.
Qed.

(** *** The pieces of a joined document *)

Lemma join_cons (d : text) (bs : list text) :
  exists t, forall b, join d (b :: bs) = b ++ t.
Proof.
  destruct bs as [|b' bs].
  - exists []. intros b. simpl. by rewrite app_nil_r.
  - exists (d ++ join d (b' :: bs)). reflexivity.
Qed.

Lemma pieces_join (a k c : nat) (bs : list text) :
  forall b pos,
    Forall (fun b => rule_line_inside b = false /\ all_lf b = false) (b :: bs) ->
    Forall2 (fun piece b => strip piece = strip b)
            (pieces pos (join (delimiter a k c) (b :: bs)) []) (b :: bs).
Proof.
  induction bs as [|b' bs IH]; intros b pos Hall.
  - apply Forall_inv in Hall as [Hi _]. cbn [join].
    rewrite pieces_last by done. by repeat constructor.
  - apply Forall_cons_1 in Hall as [[Hi Ha] Hrest].
    pose proof (Forall_inv Hrest) as [Hi' Ha'].
    destruct (join_cons (delimiter a k c) bs) as [t Ht].
    change (join (delimiter a k c) (b :: b' :: bs))
      with (b ++ delimiter a k c ++ join (delimiter a k c) (b' :: bs)).
    destruct (pieces_block (join (delimiter a k c) (b' :: bs)) a k c b Hi pos [])
      as [pos' ->].
    rewrite Ht, drop_run_app, <- Ht by done.
    constructor; [apply strip_rstrip_lf|].
    assert (Hall' : Forall (fun b => rule_line_inside b = false /\ all_lf b = false)
                           (drop_run LF b' :: bs)).
    { constructor; [|by apply Forall_inv_tail in Hrest].
      split; [by apply rule_line_inside_drop_run|by apply all_lf_drop_run]. }
    specialize (IH (drop_run LF b') pos' Hall').
    destruct (pieces pos' _ []) as [|piece rest];
      inversion IH as [|? ? ? ? Hpiece Hrest']; subst.
    constructor; [|exact Hrest']. by rewrite Hpiece, strip_drop_run.
Qed.

Lemma strip_pieces (ps bs : list text) :
  Forall2 (fun piece b => strip piece = strip b) ps bs ->
  Forall (fun b => nonempty (strip b) = true) bs ->
  map strip (List.filter (fun chunk => nonempty (strip chunk)) ps) = map strip bs.
Proof.
  induction 1 as [|p b ps bs Hp _ IH]; intros Hne; [done|].
  apply Forall_cons_1 in Hne as [Hb Hne]. simpl.
  rewrite Hp, Hb. simpl. by rewrite Hp, IH.
Qed.

(** C5 as stated fails: join the two non-empty blocks "a / ──────────"
    and "b" with a delimiter of ten rule characters; the segmenter
    gives back "a" and "────────── / b". *)
Lemma block_ending_in_rule_counterexample :
  is_delimiter (delimiter 0 0 0)
  /\ Forall (fun b => b ≠ []) [block_ending_in_rule; cps "b"]
  /\ raw_chunks (join (delimiter 0 0 0) [block_ending_in_rule; cps "b"])
     = [cps "a"; rule10 ++ [LF] ++ cps "b"]
  /\ raw_chunks (join (delimiter 0 0 0) [block_ending_in_rule; cps "b"])
     ≠ map strip [block_ending_in_rule; cps "b"].
Proof.
  split; [by exists 0, 0, 0|]. split; [by repeat constructor|].
  split; [vm_compute; reflexivity|]. vm_compute. discriminate.
Qed.

(** C5, amended: take blocks that are not blank and have no line made
    only of ten or more rule characters (U+2500), and join them with a
    delimiter made of one or more line feeds, ten or more rule
    characters and one or more line feeds.  The segmenter returns as
    many blocks, equal to the given ones after trimming, in order. *)
Theorem segmentation_round_trip (blocks : list text) (d : text) :
  is_delimiter d ->
  Forall plain_block blocks ->
  raw_chunks (join d blocks) = map strip blocks.
Proof.
  intros (a & k & c & ->) Hall. destruct blocks as [|b bs]; [reflexivity|].
  unfold raw_chunks, re_split.
  change (let '(found, tail) := scan DELIM_RE 0 (join (delimiter a k c) (b :: bs)) 0 []
          in map fst found ++ [tail])
    with (pieces 0 (join (delimiter a k c) (b :: bs)) []).
  apply strip_pieces.
  - apply pieces_join. eapply Forall_impl; [exact Hall|].
    intros x [Hne Hr]. split; [by apply no_rule_line_inside|].
    by apply nonblank_not_all_lf.
  - eapply Forall_impl; [exact Hall|]. by intros x [Hne _].
Qed.

Lemma segmentation_round_trip_witness :
  raw_chunks (join (delimiter 1 2 0) two_blocks) = [cps "uno"; cps "dos"].
Proof.
  rewrite (segmentation_round_trip two_blocks (delimiter 1 2 0)).
  - reflexivity.
  - by exists 1, 2, 0.
  - repeat constructor.
Defined.

(** * Further properties of the two scripts *)

(** ** Trimming *)

Lemma lstrip_head (s : text) :
  lstrip s = [] \/ exists c r, lstrip s = c :: r /\ isspace c = false.
Proof.
  induction s as [|x s IH]; simpl; [by left|].
  destruct (isspace x) eqn:E; [done|]. right. eauto.
Qed.

Lemma lstrip_idempotent (s : text) : lstrip (lstrip s) = lstrip s.
Proof.
  destruct (lstrip_head s) as [->|(c & r & -> & Hc)]; [done|].
  simpl. by rewrite Hc.
Qed.

Lemma rstrip_idempotent (s : text) : rstrip (rstrip s) = rstrip s.
Proof. unfold rstrip. by rewrite rev_involutive, lstrip_idempotent. Qed.

Lemma strip_idempotent (s : text) : strip (strip s) = strip s.
Proof.
  unfold strip at 2 3. destruct (lstrip_head s) as [->|(c & r & -> & Hc)]; [done|].
  rewrite rstrip_cons_nonspace by done.
  rewrite strip_cons_nonspace by done. by rewrite rstrip_idempotent.
Qed.

(** ** The segmenter *)

(** X1: every block the segmenter yields is non-empty and has no
    white space at either end. *)
Theorem raw_chunks_trimmed (t : text) : Forall trimmed (raw_chunks t).
Proof.
  unfold raw_chunks. apply List.Forall_forall. intros c Hc.
  apply in_map_iff in Hc as (x & <- & Hx).
  apply filter_In in Hx as [_ Hx]. split.
  - by destruct (strip x).
  - apply strip_idempotent.
Qed.

Lemma space_not_rule (c : N) : isspace c = true -> (RULE =? c)%N = false.
Proof.
  intros H. apply N.eqb_neq. intros <-. by vm_compute in H.
Qed.

Lemma blank_no_rule_prefix (s : text) :
  forallb isspace s = true -> rule_line_prefix s = false.
Proof.
  intros H. unfold rule_line_prefix.
  destruct s as [|c s]; [done|]. simpl in H. apply andb_true_iff in H as [Hc _].
  by rewrite (run_length_cons_ne _ _ _ (space_not_rule _ Hc)).
Qed.

Lemma blank_no_rule_inside (s : text) :
  forallb isspace s = true -> rule_line_inside s = false.
Proof.
  induction s as [|c s IH]; [done|]. cbn [forallb rule_line_inside].
  rewrite andb_true_iff. intros [Hc Hs].
  by rewrite (blank_no_rule_prefix _ Hs), andb_false_r, IH.
Qed.

Lemma lstrip_blank (s : text) : forallb isspace s = true -> lstrip s = [].
Proof.
  induction s as [|c s IH]; [done|]. simpl. rewrite andb_true_iff.
  intros [-> Hs]. auto.
Qed.

(** X2: a document that is empty or holds only white space has no
    block, and [parse_file] returns the empty list for it, without
    error. *)
Theorem parse_file_blank (t : text) :
  forallb isspace t = true ->
  raw_chunks t = [] /\ parse_file t = Ok [].
Proof.
  intros H. assert (Hr : raw_chunks t = []).
  { unfold raw_chunks, re_split.
    change (let '(found, tail) := scan DELIM_RE 0 t 0 [] in map fst found ++ [tail])
      with (pieces 0 t []).
    rewrite pieces_last by (by apply blank_no_rule_inside).
    simpl. unfold strip. by rewrite (lstrip_blank _ H). }
  split; [done|]. unfold parse_file. by rewrite Hr.
Qed.

Lemma parse_file_blank_witness :
  parse_file (cps "  " ++ [LF; LF] ++ cps " " ++ [LF]) = Ok [].
Proof. apply parse_file_blank. reflexivity. Defined.

Lemma for_each_first_failure {A B} (f : A -> result B) (xs : list A) (e : exn) :
  for_each f xs = Raise e ->
  exists i x, xs !! i = Some x /\ f x = Raise e
    /\ forall j y, j < i -> xs !! j = Some y -> exists b, f y = Ok b.
Proof.
  induction xs as [|x xs IH]; simpl; [done|].
  destruct (f x) as [b|e'] eqn:Ex; simpl.
  - destruct (for_each f xs) as [bs|e'] eqn:Exs; simpl; [done|].
    intros [= ->]. destruct (IH eq_refl) as (i & y & Hi & Hy & Hbefore).
    exists (S i), y. repeat split; try done.
    intros [|j] z Hj Hz; simpl in Hz.
    + injection Hz as <-. eauto.
    + apply (Hbefore j); [lia|done].
  - intros [= ->]. exists 0, x. repeat split; try done. lia.
Qed.

(** X3: [parse_file] has no partial result.  It returns one question
    per block, in the order of the blocks, when every block parses;
    otherwise it raises the error of the first block that fails. *)
Theorem parse_file_all_or_nothing (t : text) :
  match parse_file t with
  | Ok questions =>
      length questions = length (raw_chunks t)
      /\ forall i chunk, raw_chunks t !! i = Some chunk ->
           exists q, questions !! i = Some q /\ parse_chunk chunk = Ok q
  | Raise e =>
      exists i chunk, raw_chunks t !! i = Some chunk
        /\ parse_chunk chunk = Raise e
        /\ forall j c, j < i -> raw_chunks t !! j = Some c ->
             exists q, parse_chunk c = Ok q
  end.
Proof.
  unfold parse_file. destruct (for_each parse_chunk (raw_chunks t)) as [qs|e] eqn:E.
  - by apply for_each_lookup.
  - by apply for_each_first_failure.
Qed.

(** ** The annotator on questions of any shape *)

Lemma outer_loop_type_error (patterns : list LoadedPattern) (v entities : json) :
  patterns ≠ [] ->
  (forall s, v ≠ JStr s) ->
  for_fold (fun entities pattern =>
              bind (finditer_json (lp_regex pattern) v)
                   (fun ms =>
                      for_fold (fun entities m =>
                                  append entities (make_entity pattern m))
                               ms entities))
           patterns entities = Raise TypeError.
Proof.
  intros Hp Hv. destruct patterns as [|p ps]; [done|]. simpl.
  destruct v; try done. by destruct (Hv s).
Qed.

(** X4: when the stem of a question is present but is not a string
    (null, a number, a list, ...) and there is at least one pattern,
    [enrich_question] raises TypeError, whatever the entities are. *)
Theorem enrich_question_stem_not_string (question : gmap text json)
  (patterns : list LoadedPattern) (v : json) :
  patterns ≠ [] ->
  question !! stem_key = Some v ->
  (forall s, v ≠ JStr s) ->
  enrich_question question patterns = Raise TypeError.
Proof.
  intros Hp Hv Hs. unfold enrich_question, question_text. rewrite Hv. simpl.
  by rewrite outer_loop_type_error.
Qed.

Lemma enrich_question_stem_not_string_witness :
  enrich_question {[ stem_key := JNull ]} [fever_pattern] = Raise TypeError.
Proof.
  apply (enrich_question_stem_not_string _ _ JNull); [done|reflexivity|done].
Defined.

Lemma inner_loop_attribute_error (p : LoadedPattern) (ms : list Match) (v : json) :
  (forall items, v ≠ JArr items) -> ms ≠ [] ->
  for_fold (fun entities m => append entities (make_entity p m)) ms v
  = Raise AttributeError.
Proof.
  intros Hv Hms. destruct ms as [|m ms]; [done|]. simpl.
  destruct v; try done. by destruct (Hv items).
Qed.

Lemma outer_loop_attribute_error (patterns : list LoadedPattern) (s : text) (v : json) :
  (forall items, v ≠ JArr items) ->
  for_fold (fun entities pattern =>
              bind (finditer_json (lp_regex pattern) (JStr s))
                   (fun ms =>
                      for_fold (fun entities m =>
                                  append entities (make_entity pattern m))
                               ms entities))
           patterns v
  = match new_entities patterns s with
    | [] => Ok v
    | _ :: _ => Raise AttributeError
    end.
Proof.
  intros Hv. induction patterns as [|p ps IH]; [done|].
  cbn [for_fold finditer_json bind]. unfold new_entities. cbn [flat_map].
  destruct (finditer (lp_regex p) s) as [|m ms] eqn:E.
  - simpl. exact IH.
  - rewrite inner_loop_attribute_error by done. reflexivity.
Qed.

(** X5: when "clinical_entities" holds a truthy value that is not a
    list (a string, a number, an object), [enrich_question] raises
    AttributeError as soon as some pattern matches the stem; when no
    pattern matches it returns the question as it is, with the value
    that is not a list still in place. *)
Theorem enrich_question_entities_not_list (question : gmap text json)
  (patterns : list LoadedPattern) (s : text) (v : json) :
  question_text question = JStr s ->
  question !! entities_key = Some v ->
  truthy v = true ->
  (forall items, v ≠ JArr items) ->
  enrich_question question patterns
  = match new_entities patterns s with
    | [] => Ok question
    | _ :: _ => Raise AttributeError
    end.
Proof.
  intros Hs Hv Ht Hl. unfold enrich_question, question_entities.
  rewrite Hs, Hv. change (default (JArr []) (Some v)) with v.
  rewrite Ht, outer_loop_attribute_error by done.
  destruct (new_entities patterns s); [|done]. cbn [bind]. by rewrite insert_id.
Qed.

Lemma enrich_question_entities_not_list_witness :
  enrich_question (<[entities_key := JStr (cps "ninguna")]> fever_question)
                  [fever_pattern] = Raise AttributeError
  /\ enrich_question (<[entities_key := JStr (cps "ninguna")]> fever_question) []
     = Ok (<[entities_key := JStr (cps "ninguna")]> fever_question).
Proof.
  split.
  - rewrite (enrich_question_entities_not_list _ _ fever_stem (JStr (cps "ninguna")));
      [reflexivity|reflexivity|reflexivity|reflexivity|done].
  - rewrite (enrich_question_entities_not_list _ _ fever_stem (JStr (cps "ninguna")));
      [reflexivity|reflexivity|reflexivity|reflexivity|done].
Defined.

Lemma dict_get_set_ne (k k' : text) (v : json) (d : list (text * json)) :
  k' ≠ k -> dict_get k' (dict_set k v d) = dict_get k' d.
Proof.
  intros Hk.
  assert (Hf : text_eqb k k' = false)
    by (apply bool_decide_eq_false_2; congruence).
  induction d as [|[k0 v0] d IH]; simpl.
  - by rewrite Hf.
  - destruct (text_eqb k0 k) eqn:E; simpl.
    + apply bool_decide_eq_true_1 in E. subst k0. by rewrite Hf.
    + by rewrite IH.
Qed.

(** X6: an entity carries a copy of the attribute template of its
    pattern.  Only the key "value" can differ from the template, and
    it differs only for a pattern of type "timeline" with a group; for
    any other pattern the attributes are the template itself (the
    empty mapping when the pattern has none). *)
Theorem make_entity_attributes (p : LoadedPattern) (m : Match) :
  let template := default [] (ps_attributes (lp_spec p)) in
  (forall k, k ≠ cps "value" ->
             entity_attribute (make_entity p m) k = dict_get k template)
  /\ (ps_type (lp_spec p) ≠ timeline \/ mt_ngroups m = 0 ->
      entity_field (make_entity p m) (cps "attributes") = Some (JObj template)).
Proof.
  cbv zeta. split.
  - intros k Hk. unfold make_entity, entity_attribute. cbn [dict_get].
    change (text_eqb (cps "type") (cps "attributes")) with false.
    change (text_eqb (cps "value") (cps "attributes")) with false.
    change (text_eqb (cps "text_span") (cps "attributes")) with false.
    change (text_eqb (cps "attributes") (cps "attributes")) with true.
    cbv iota.
    destruct (text_eqb _ timeline && _); [|done]. by apply dict_get_set_ne.
  - intros H. unfold make_entity, entity_field.
    replace (text_eqb (ps_type (lp_spec p)) timeline && (0 <? mt_ngroups m))
      with false; [reflexivity|].
    symmetry. apply andb_false_iff. destruct H as [H|H].
    + left. unfold text_eqb. by apply bool_decide_eq_false_2.
    + right. rewrite H. reflexivity.
Qed.

Lemma make_entity_attributes_witness :
  entity_field (make_entity fever_pattern first_fever_match) (cps "attributes")
  = Some (JObj []).
Proof.
  destruct (make_entity_attributes fever_pattern first_fever_match) as [_ H].
  apply H. left. discriminate.
Defined.

Lemma load_patterns_invalid (re_parse : text -> option regex)
  (data : list PatternSpec) :
  (exists item, In item data /\ re_parse (ps_pattern item) = None) ->
  exists source, load_patterns re_parse data = Raise (ReError source).
Proof.
  induction data as [|item data IH]; intros (bad & Hin & Hbad); [done|].
  unfold load_patterns, re_compile in *. simpl.
  destruct (re_parse (ps_pattern item)) as [r|] eqn:Er; simpl; [|eauto].
  destruct Hin as [->|Hin]; [congruence|].
  destruct IH as [source ->]; eauto.
Qed.

(** X7: in [process] the patterns are loaded before any question is
    enriched: one pattern that does not compile makes the whole run
    raise the pattern error, whatever the questions are, even
    questions on which the annotator itself would fail. *)
Theorem process_invalid_pattern (re_parse : text -> option regex)
  (questions : list (gmap text json)) (data : list PatternSpec) :
  (exists item, In item data /\ re_parse (ps_pattern item) = None) ->
  exists source, process re_parse questions data = Raise (ReError source).
Proof.
  intros H. apply (load_patterns_invalid re_parse) in H as [source H].
  exists source. unfold process. by rewrite H.
Qed.

Lemma process_invalid_pattern_witness :
  exists source,
    process (fun _ => None) [{[ stem_key := JNull ]}]
            [lp_spec fever_pattern] = Raise (ReError source).
Proof.
  apply process_invalid_pattern. exists (lp_spec fever_pattern).
  split; [by left|reflexivity].
Defined.

(** ** From the parser to the annotator *)

Lemma asdict_stem (q : Question) :
  question_to_dict q !! stem_key = Some (JStr (q_stem q)).
Proof. reflexivity. Qed.

Lemma asdict_entities (q : Question) :
  question_to_dict q !! entities_key = Some (JArr (q_clinical_entities q)).
Proof. reflexivity. Qed.

Lemma question_entities_list (question : gmap text json) (items : list json) :
  question !! entities_key = Some (JArr items) ->
  question_entities question = JArr items.
Proof. unfold question_entities. intros ->. simpl. by destruct items. Qed.

Lemma enrich_dict (q : Question) (patterns : list LoadedPattern) :
  enrich_question (question_to_dict q) patterns
  = Ok (<[entities_key := JArr (q_clinical_entities q
                                 ++ new_entities patterns (q_stem q))]>
          (question_to_dict q)).
Proof.
  apply enrich_question_appends.
  - unfold question_text. by rewrite asdict_stem.
  - apply question_entities_list, asdict_entities.
Qed.

(** X8: the annotator never fails on what the parser writes.  For
    the dicts [questions_to_dicts] makes of any questions, and any
    patterns, the batch returns one dict per question, in order, equal
    to the question's dict with "clinical_entities" extended by the
    entities found in its stem. *)
Theorem enrich_parsed_questions (questions : list Question)
  (patterns : list LoadedPattern) :
  enrich_all (questions_to_dicts questions) patterns
  = Ok (map (fun q =>
               <[entities_key := JArr (q_clinical_entities q
                                        ++ new_entities patterns (q_stem q))]>
                 (question_to_dict q))
            questions).
Proof.
  unfold enrich_all, questions_to_dicts.
  induction questions as [|q qs IH]; [done|].
  cbn [map for_each]. rewrite enrich_dict. cbn [bind]. by rewrite IH.
Qed.

(** The annotator on the output of the parser: a parsed question has
    no entities yet, so afterwards it holds exactly those found. *)
Lemma enrich_parsed_chunk (chunk : text) (q : Question)
  (patterns : list LoadedPattern) :
  parse_chunk chunk = Ok q ->
  enrich_question (question_to_dict q) patterns
  = Ok (<[entities_key := JArr (new_entities patterns (q_stem q))]>
          (question_to_dict q)).
Proof.
  intros H. rewrite enrich_dict.
  apply parse_chunk_inv in H as (? & ? & ? & ? & ? & ? & ? & ? & ? & ? & ? & ? & ? & ->).
  reflexivity.
Qed.

(** ** [normalize_spaces] *)

Lemma drop_while_shorter (ok : N -> bool) (s : text) :
  length (drop_while ok s) <= length s.
Proof.
  induction s as [|x s IH]; simpl; [lia|]. destruct (ok x); simpl; lia.
Qed.

Lemma star_step_run (ok : N -> bool) (gs : list (nat * text)) (rest : text) :
  forall fuel pos,
    length rest < fuel ->
    star_loop (step_char ok) fuel
              {| m_pos := pos; m_rest := rest; m_groups := gs |}
    = ok_states ok pos rest gs.
Proof.
  induction rest as [|x rest IH]; intros [|fuel] pos Hf; simpl in Hf; try lia.
  - reflexivity.
  - cbn [star_loop ok_states step_char m_rest m_pos m_groups].
    destruct (ok x); [|reflexivity].
    cbn [flat_map m_pos]. rewrite app_nil_r.
    replace (pos <? S pos) with true by (symmetry; apply Nat.ltb_lt; lia).
    rewrite IH by lia. reflexivity.
Qed.

Lemma head_ok_states (ok : N -> bool) (gs : list (nat * text)) (rest : text) :
  forall pos,
    exists p, head (ok_states ok pos rest gs)
              = Some {| m_pos := p; m_rest := drop_while ok rest; m_groups := gs |}.
Proof.
  induction rest as [|x rest IH]; intros pos; [simpl; eauto|].
  cbn [ok_states drop_while]. destruct (ok x); [|simpl; eauto].
  destruct (IH (S pos)) as [p Hp].
  destruct (ok_states ok (S pos) rest gs); [done|]. simpl in *. eauto.
Qed.

Lemma space_class (x : N) : class_mem false false [CSpace] x = isspace x.
Proof. unfold class_mem. simpl. by rewrite orb_false_r. Qed.

Lemma rmatch_class (ic negated : bool) (items : list cset) (st : mstate) :
  rmatch ic (Class negated items) st = step_char (class_mem ic negated items) st.
Proof. reflexivity. Qed.

Lemma rmatch_star_class (ic negated : bool) (items : list cset) (pos : nat)
  (rest : text) (gs : list (nat * text)) :
  rmatch ic (Star (Class negated items))
         {| m_pos := pos; m_rest := rest; m_groups := gs |}
  = ok_states (class_mem ic negated items) pos rest gs.
Proof.
  change (rmatch ic (Star (Class negated items))
                 {| m_pos := pos; m_rest := rest; m_groups := gs |})
    with (star_loop (step_char (class_mem ic negated items)) (S (length rest))
                    {| m_pos := pos; m_rest := rest; m_groups := gs |}).
  apply star_step_run. lia.
Qed.

(** The first match of [\s+] at the start of [rest]: the whole run of
    white space, when there is one. *)
Lemma rmatch_spaces (pos : nat) (rest : text) :
  match rest with
  | x :: rest' =>
      if isspace x
      then exists p, head (rmatch false (p_re SPACES_RE)
                                  {| m_pos := pos; m_rest := rest; m_groups := [] |})
                     = Some {| m_pos := p; m_rest := drop_while isspace rest';
                               m_groups := [] |}
      else rmatch false (p_re SPACES_RE)
                  {| m_pos := pos; m_rest := rest; m_groups := [] |} = []
  | [] => rmatch false (p_re SPACES_RE)
                 {| m_pos := pos; m_rest := rest; m_groups := [] |} = []
  end.
Proof.
  cbn [SPACES_RE p_re]. unfold Plus, Space. rewrite rmatch_cat_eq, rmatch_class.
  unfold step_char. cbn [m_rest m_pos m_groups].
  destruct rest as [|x rest]; [done|]. rewrite space_class.
  destruct (isspace x); [|done]. cbn [flat_map]. rewrite app_nil_r.
  rewrite rmatch_star_class.
  destruct (head_ok_states (class_mem false false [CSpace]) [] rest (S pos))
    as [p Hp].
  exists p. rewrite Hp. do 2 f_equal.
  clear. induction rest as [|y rest IH]; [done|]. cbn [drop_while].
  rewrite space_class. by destruct (isspace y).
Qed.

Lemma matches_here_spaces (pos : nat) (rest : text) :
  match rest with
  | x :: rest' =>
      if isspace x
      then exists m y, matches_here SPACES_RE pos rest = [m]
             /\ rest' = y ++ drop_while isspace rest'
             /\ mt_end m = S pos + length y
      else matches_here SPACES_RE pos rest = []
  | [] => matches_here SPACES_RE pos rest = []
  end.
Proof.
  pose proof (rmatch_spaces pos rest) as H.
  unfold matches_here, match_at. rewrite find_all by done.
  change (p_ignorecase SPACES_RE) with false.
  destruct rest as [|x rest]; [by rewrite H|].
  destruct (isspace x); [|by rewrite H].
  destruct H as [p H]. rewrite H. cbn [mt_end m_pos].
  assert (Hin : In {| m_pos := p; m_rest := drop_while isspace rest; m_groups := [] |}
                   (rmatch false (p_re SPACES_RE)
                           {| m_pos := pos; m_rest := x :: rest; m_groups := [] |})).
  { destruct (rmatch false _ _) as [|st l]; [done|]. injection H as ->. by left. }
  apply rmatch_advances in Hin as (c & Hc & Hp). simpl in Hc, Hp.
  pose proof (drop_while_shorter isspace rest) as Hlen.
  destruct c as [|c0 c].
  { exfalso. simpl in Hc. rewrite <- Hc in Hlen. simpl in Hlen. lia. }
  injection Hc as -> Hrest. simpl in Hp.
  replace (p =? pos) with false by (symmetry; apply Nat.eqb_neq; lia).
  eexists _, c. repeat split; [done|simpl; lia].
Qed.

Lemma subbed_nil (pos : nat) (gap : text) : subbed pos [] gap = rev gap.
Proof. reflexivity. Qed.

Lemma subbed_nonspace (pos : nat) (c : N) (s gap : text) :
  isspace c = false -> subbed pos (c :: s) gap = subbed (S pos) s (c :: gap).
Proof.
  intros Hc. unfold subbed. rewrite scan_here.
  pose proof (matches_here_spaces pos (c :: s)) as H. cbv beta iota in H.
  rewrite Hc in H. by rewrite H.
Qed.

Lemma subbed_space (pos : nat) (c : N) (s gap : text) :
  isspace c = true ->
  exists pos',
    subbed pos (c :: s) gap
    = rev gap ++ cps " " ++ subbed pos' (drop_while isspace s) [].
Proof.
  intros Hc. pose proof (matches_here_spaces pos (c :: s)) as H.
  cbv beta iota in H. rewrite Hc in H. destruct H as (m & y & Hm & Hs & Hend).
  exists (S pos + length y). unfold subbed. rewrite scan_here, Hm.
  cbn [last_end rev app map]. rewrite Hend.
  replace (S pos + length y - pos) with (S (length y)) by lia.
  cbv zeta iota beta. rewrite Hs at 1. rewrite scan_skip.
  destruct (scan SPACES_RE (S pos + length y) (drop_while isspace s) 0 [])
    as [more tail].
  cbn [flat_map fst app]. by rewrite <- !app_assoc.
Qed.

Lemma collapse_in_space (s : text) :
  collapse_from true s = collapse_from false (drop_while isspace s).
Proof.
  induction s as [|c s IH]; [done|]. simpl.
  destruct (isspace c) eqn:E; [done|]. simpl. by rewrite E.
Qed.

Lemma subbed_collapse (n : nat) :
  forall s pos gap,
    length s <= n -> subbed pos s gap = rev gap ++ collapse_from false s.
Proof.
  induction n as [|n IH]; intros [|c s] pos gap Hn; simpl in Hn; try lia.
  - rewrite subbed_nil. by rewrite app_nil_r.
  - rewrite subbed_nil. by rewrite app_nil_r.
  - cbn [collapse_from]. destruct (isspace c) eqn:E.
    + destruct (subbed_space pos c s gap E) as [pos' ->].
      pose proof (drop_while_shorter isspace s).
      rewrite IH by lia. by rewrite collapse_in_space.
    + rewrite (subbed_nonspace _ _ _ _ E), IH by lia.
      simpl. by rewrite <- app_assoc.
Qed.

(** [re.sub(r"\s+", " ", t)] replaces each run of white space of [t]
    by one space. *)
Lemma re_sub_spaces (t : text) :
  re_sub SPACES_RE (cps " ") t = collapse_from false t.
Proof.
  change (re_sub SPACES_RE (cps " ") t) with (subbed 0 t []).
  by rewrite (subbed_collapse (length t)).
Qed.

Lemma rstrip_keep (x : text) (c : N) :
  isspace c = false -> rstrip (x ++ [c]) = x ++ [c].
Proof.
  intros Hc. unfold rstrip. rewrite rev_app_distr. simpl. rewrite Hc.
  simpl. by rewrite rev_involutive.
Qed.

Lemma split_from_nonempty (cur s : text) : cur ≠ [] -> split_from cur s ≠ [].
Proof.
  revert cur. induction s as [|c s IH]; intros cur Hcur; simpl.
  - by destruct cur.
  - destruct (isspace c); [by destruct cur|]. by apply IH.
Qed.

Lemma join_cons_space (p : text) (ps : list text) :
  join [SPACE] (p :: ps)
  = p ++ match ps with [] => [] | _ :: _ => SPACE :: join [SPACE] ps end.
Proof. destruct ps; simpl; [by rewrite app_nil_r|done]. Qed.

(** The collapsed text, read after a word in progress and read after
    white space. *)
Lemma collapse_join (s : text) :
  (forall p cur,
      cur ≠ [] -> forallb (fun c => negb (isspace c)) cur = true ->
      rstrip (p ++ rev cur ++ collapse_from false s)
      = p ++ join [SPACE] (split_from cur s))
  /\ (forall p c,
        isspace c = false ->
        rstrip ((p ++ [c]) ++ SPACE :: collapse_from true s)
        = (p ++ [c]) ++ match split_from [] s with
                        | [] => []
                        | _ :: _ => SPACE :: join [SPACE] (split_from [] s)
                        end).
Proof.
  induction s as [|d s [IH1 IH2]]; split.
  - intros p [|c0 cur] Hne Hcur; [done|]. simpl in *.
    apply andb_true_iff in Hcur as [Hc0 _]. apply negb_true_iff in Hc0.
    rewrite !app_nil_r, app_assoc. by apply rstrip_keep.
  - intros p c Hc. simpl. rewrite app_nil_r.
    rewrite rstrip_app_space by done. by apply rstrip_keep.
  - intros p cur Hne Hcur. cbn [collapse_from split_from].
    destruct (isspace d) eqn:Ed.
    + destruct cur as [|c0 cur]; [done|].
      pose proof Hcur as Hc0. simpl in Hc0.
      apply andb_true_iff in Hc0 as [Hc0 _]. apply negb_true_iff in Hc0.
      rewrite join_cons_space. cbn [rev].
      rewrite <- (app_assoc (rev cur) [c0]), (app_assoc p (rev cur)).
      rewrite (app_assoc (p ++ rev cur) [c0]).
      rewrite (IH2 (p ++ rev cur) c0 Hc0). by rewrite <- !app_assoc.
    + replace (p ++ rev cur ++ d :: collapse_from false s)
        with (p ++ rev (d :: cur) ++ collapse_from false s)
        by (simpl; by rewrite <- app_assoc).
      apply IH1; [done|]. simpl. by rewrite Ed.
  - intros p c Hc. cbn [collapse_from split_from].
    destruct (isspace d) eqn:Ed; [by apply IH2|].
    replace ((p ++ [c]) ++ SPACE :: d :: collapse_from false s)
      with (((p ++ [c]) ++ [SPACE]) ++ rev [d] ++ collapse_from false s)
      by (simpl; by rewrite <- !app_assoc).
    rewrite IH1; [|done|by simpl; rewrite Ed].
    pose proof (split_from_nonempty [d] s) as Hne.
    destruct (split_from [d] s); [by destruct Hne|]. by rewrite <- !app_assoc.
Qed.

Lemma strip_collapse (t : text) (in_space : bool) :
  strip (collapse_from in_space t) = join [SPACE] (split t).
Proof.
  revert in_space. induction t as [|c t IH]; intros in_space; [done|].
  unfold split. cbn [collapse_from split_from]. destruct (isspace c) eqn:Ec.
  - destruct in_space; [apply IH|].
    unfold strip. cbn [lstrip].
    change (isspace SPACE) with true. cbv iota. apply (IH true).
  - rewrite strip_cons_nonspace by done.
    rewrite <- (rstrip_cons_nonspace c) by done.
    apply (proj1 (collapse_join t) [] [c]); [done|]. simpl. by rewrite Ec.
Qed.

Lemma split_from_token (tok s cur : text) :
  forallb (fun c => negb (isspace c)) tok = true ->
  split_from cur (tok ++ s) = split_from (rev tok ++ cur) s.
Proof.
  revert cur. induction tok as [|c tok IH]; intros cur Htok; [done|].
  simpl in Htok. apply andb_true_iff in Htok as [Hc Htok].
  apply negb_true_iff in Hc. cbn [app split_from]. rewrite Hc, IH by done.
  simpl. by rewrite <- app_assoc.
Qed.

(** Words without white space, joined by single spaces, split into
    the same words. *)
Lemma split_join (words : list text) :
  Forall (fun w => w ≠ [] /\ forallb (fun c => negb (isspace c)) w = true) words ->
  split (join [SPACE] words) = words.
Proof.
  unfold split. induction words as [|w ws IH]; intros H; [done|].
  apply Forall_cons_1 in H as [[Hne Hw] Hws].
  destruct ws as [|w' ws].
  - simpl. rewrite <- (app_nil_r w) at 1. rewrite split_from_token by done.
    simpl. rewrite app_nil_r, rev_involutive.
    destruct (rev w) eqn:E; [|done].
    apply (f_equal (@rev N)) in E. rewrite rev_involutive in E. by destruct Hne.
  - change (join [SPACE] (w :: w' :: ws))
      with (w ++ SPACE :: join [SPACE] (w' :: ws)).
    rewrite split_from_token by done. cbn [split_from].
    change (isspace SPACE) with true. cbv iota.
    rewrite app_nil_r, rev_involutive, IH by done.
    destruct (rev w) eqn:E; [|done].
    apply (f_equal (@rev N)) in E. rewrite rev_involutive in E. by destruct Hne.
Qed.

Lemma split_from_words (s cur : text) :
  forallb (fun c => negb (isspace c)) cur = true ->
  Forall (fun w => w ≠ [] /\ forallb (fun c => negb (isspace c)) w = true)
         (split_from cur s).
Proof.
  revert cur. induction s as [|c s IH]; intros cur Hcur; simpl.
  - destruct cur as [|c0 cur]; [constructor|]. repeat constructor.
    + intros E. apply (f_equal (@length N)) in E. rewrite length_rev in E. done.
    + rewrite forallb_forall in *. intros x Hx. apply Hcur. by apply in_rev.
  - destruct (isspace c) eqn:Ec.
    + destruct cur as [|c0 cur]; [by apply IH|]. constructor; [|by apply IH].
      split.
      * intros E. apply (f_equal (@length N)) in E. rewrite length_rev in E. done.
      * rewrite forallb_forall in *. intros x Hx. apply Hcur. by apply in_rev.
    + apply IH. simpl. by rewrite Ec.
Qed.

Lemma normalize_spaces_join (u : text) :
  normalize_spaces u = join [SPACE] (split u).
Proof. unfold normalize_spaces. by rewrite re_sub_spaces, strip_collapse. Qed.

(** X9: [normalize_spaces] gives the words of the text (its maximal
    runs without white space) joined by single spaces, that is
    [" ".join(text.split())]; so it leaves no white space at either
    end, no white space other than single spaces between words, and
    applying it twice is the same as applying it once. *)
Theorem normalize_spaces_words (t : text) :
  normalize_spaces t = join [SPACE] (split t)
  /\ split (normalize_spaces t) = split t
  /\ normalize_spaces (normalize_spaces t) = normalize_spaces t.
Proof.
  pose proof normalize_spaces_join as H.
  assert (Hs : split (normalize_spaces t) = split t).
  { rewrite H. apply split_join. by apply split_from_words. }
  split; [apply H|]. split; [exact Hs|]. by rewrite (H (normalize_spaces t)), Hs, H.
Qed.

(** ** The header *)

Lemma int_digits_nonneg (s : text) :
  forall acc prev z, (0 <= acc)%Z -> int_digits acc prev s = Some z -> (0 <= z)%Z.
Proof.
  induction s as [|c s IH]; intros acc prev z Hacc; simpl.
  - destruct prev; [|done]. by intros [= <-].
  - destruct (isdecimal c) eqn:Ec.
    + apply IH. unfold digit_value. unfold isdecimal in Ec. to_prop. lia.
    + destruct ((c =? 95)%N && prev); [|done].
      destruct s as [|d s']; [done|]. destruct (isdecimal d); [|done].
      by apply IH.
Qed.

Lemma py_int_digits_nonneg (ds : text) (z : Z) :
  forallb isdecimal ds = true -> py_int ds = Some z -> (0 <= z)%Z.
Proof.
  intros Hds. unfold py_int. rewrite strip_nonspace.
  - destruct ds as [|d ds]; [done|].
    pose proof Hds as Hd. simpl in Hd. apply andb_true_iff in Hd as [Hd _].
    assert ((d =? 43)%N = false /\ (d =? 45)%N = false) as [-> ->]
      by (unfold isdecimal in Hd; to_prop; lia).
    by apply int_digits_nonneg.
  - clear z. induction ds as [|d ds IH]; [done|]. simpl in *.
    apply andb_true_iff in Hds as [Hd Hds]. by rewrite (digit_not_space _ Hd), IH.
Qed.

Lemma last_In {A} (xs : list A) (x : A) : last xs = Some x -> In x xs.
Proof.
  induction xs as [|y [|y' xs] IH]; simpl; [done| |].
  - intros [= ->]. by left.
  - intros H. right. by apply IH.
Qed.

Lemma removelast_Forall {A} (P : A -> Prop) (xs : list A) :
  Forall P xs -> Forall P (removelast xs).
Proof.
  induction 1 as [|x xs Hx Hxs IH]; simpl; [constructor|].
  destruct xs; [constructor|]. by constructor.
Qed.

Lemma join_words_head (sep : text) (ws : list text) :
  Forall (fun w => w ≠ [] /\ forallb (fun c => negb (isspace c)) w = true) ws ->
  join sep ws = []
  \/ exists c r, join sep ws = c :: r /\ isspace c = false.
Proof.
  intros H. destruct H as [|w ws [Hne Hw] _]; [by left|]. right.
  destruct w as [|c w]; [done|]. simpl in Hw.
  apply andb_true_iff in Hw as [Hc _]. apply negb_true_iff in Hc.
  exists c. destruct ws; simpl; eauto.
Qed.

(** What [parse_header] returns. *)
Lemma parse_header_result (line : text) (number : Z) (exam : text) (year : option Z) :
  parse_header line = Ok (number, exam, year) ->
  (0 <= number)%Z /\ strip exam = exam /\ (year ≠ None -> exam ≠ []).
Proof.
  unfold parse_header. destruct (re_match HEADER_RE line) as [m|] eqn:E; [|done].
  destruct (header_number_digits _ _ E) as (ds & Hg & Hne & Hds).
  unfold group_text at 1. rewrite Hg.
  change (default [] (Some ds)) with ds.
  destruct (py_int ds) as [n|] eqn:En; [|done].
  apply py_int_digits_nonneg in En; [|done].
  set (label := strip (group_text m 2)).
  pose proof (split_from_words label [] eq_refl) as Hwords.
  fold (split label) in Hwords.
  destruct (last (split label)) as [tok|] eqn:El.
  - destruct (py_int tok) as [y|] eqn:Ey.
    + intros [= <- <- <-]. split; [done|]. split; [apply strip_idempotent|].
      intros _.
      pose proof (last_In _ _ El) as Hin.
      rewrite List.Forall_forall in Hwords. destruct (Hwords _ Hin) as [Htok Hns].
      destruct (nonempty (join (cps " ") (removelast (split label)))) eqn:Ej.
      * destruct (join_words_head (cps " ") (removelast (split label)))
          as [Hj|(c & r & Hj & Hc)].
        { apply removelast_Forall. by apply List.Forall_forall. }
        { by rewrite Hj in Ej. }
        rewrite Hj, strip_cons_nonspace by done. done.
      * by rewrite strip_nonspace.
    + intros [= <- <- <-]. split; [done|]. split; [apply strip_idempotent|done].
  - intros [= <- <- <-]. split; [done|]. split; [apply strip_idempotent|done].
Qed.

Lemma parsed_header_fields_aux (chunk : text) (q : Question) :
  parse_chunk chunk = Ok q ->
  (0 <= q_number q)%Z /\ (q_source_exam q = [] -> q_year q = None).
Proof.
  intros H. apply parse_chunk_inv in H
    as (h & number & exam & year & _ & Hh & _ & <- & <- & <- & _).
  apply parse_header_result in Hh as (Hn & He & Hy).
  split; [done|]. intros Hempty.
  destruct (q_year q) as [y|]; [|done]. by destruct Hy.
Qed.

(** X10: in every parsed question the number is not negative, the
    exam name has no white space at either end, and the exam name is
    empty only when the year is absent. *)
Theorem parsed_header_fields (chunk : text) (q : Question) :
  parse_chunk chunk = Ok q ->
  (0 <= q_number q)%Z
  /\ strip (q_source_exam q) = q_source_exam q
  /\ (q_source_exam q = [] -> q_year q = None).
Proof.
  intros H. apply parse_chunk_inv in H
    as (h & number & exam & year & _ & Hh & _ & <- & <- & <- & _).
  apply parse_header_result in Hh as (Hn & He & Hy).
  repeat split; try done. intros Hempty.
  destruct (q_year q) as [y|]; [|done]. by destruct Hy.
Qed.

Lemma parsed_header_fields_witness :
  exists q, parse_chunk (cps "Pregunta 1 ( ):") = Ok q
    /\ q_source_exam q = [] /\ q_year q = None /\ (0 <= q_number q)%Z.
Proof.
  destruct (parse_chunk (cps "Pregunta 1 ( ):")) as [q|e] eqn:E;
    [|vm_compute in E; discriminate].
  destruct (parsed_header_fields _ _ E) as (Hn & _ & Hy).
  assert (Hexam : q_source_exam q = [])
    by (revert E; vm_compute; by intros [= <-]).
  exists q. repeat split; try done. by apply Hy.
Defined.

(** ** The identifier *)

Lemma nat_digits_decimal (fuel : nat) :
  forall n acc,
    forallb isdecimal acc = true ->
    forallb isdecimal (nat_digits fuel n acc) = true.
Proof.
  induction fuel as [|fuel IH]; intros n acc Hacc; [done|].
  cbn [nat_digits].
  assert (Hd : isdecimal (48 + n mod 10) = true).
  { assert (n mod 10 < 10)%N as Hr by (by apply N.mod_lt).
    revert Hr. generalize (n mod 10)%N as r. intros r Hr.
    unfold isdecimal. to_prop. lia. }
  destruct (n <? 10)%N.
  - simpl. by rewrite Hd.
  - apply IH. simpl. by rewrite Hd.
Qed.

Lemma format_02d_digits (z : Z) :
  (0 <= z)%Z ->
  2 <= length (format_02d z) /\ forallb isdecimal (format_02d z) = true.
Proof.
  intros Hz. unfold format_02d.
  replace (z <? 0)%Z with false by (symmetry; apply Z.ltb_ge; lia).
  pose proof (str_N_nonempty (Z.abs_N z)) as Hlen.
  pose proof (nat_digits_decimal (S (N.to_nat (N.log2 (Z.abs_N z))))
                                 (Z.abs_N z) [] eq_refl) as Hdec.
  fold (str_N (Z.abs_N z)) in Hdec.
  destruct (str_N (Z.abs_N z)) as [|d [|d' ds]].
  - simpl in Hlen. lia.
  - split; [simpl; lia|]. change (forallb isdecimal [d] = true). exact Hdec.
  - split; [simpl; lia|done].
Qed.

Lemma upper_cp_no_space (c : N) : c ≠ SPACE -> ~ In SPACE (upper_cp c).
Proof.
  unfold upper_cp, SPACE. intros Hc.
  destruct (in_range 97 122 c) eqn:E1; [to_prop; simpl; lia|].
  destruct (c =? 181)%N; [simpl; lia|].
  destruct (c =? 223)%N; [simpl; lia|].
  destruct (c =? 255)%N; [simpl; lia|].
  destruct (in_range 224 254 c && negb (c =? 247)%N) eqn:E2;
    [to_prop; simpl; lia|].
  simpl. intros [H|[]]. congruence.
Qed.

Lemma upper_no_space (s : text) : ~ In SPACE (upper (remove_spaces s)).
Proof.
  unfold upper, remove_spaces. rewrite in_flat_map. intros (c & Hc & Hs).
  apply filter_In in Hc as [_ Hc]. apply negb_true_iff, N.eqb_neq in Hc.
  by apply (upper_cp_no_space c).
Qed.

Lemma decimal_no_space (s : text) :
  forallb isdecimal s = true -> ~ In SPACE s.
Proof.
  rewrite forallb_forall. intros H Hin. apply H in Hin. done.
Qed.

Lemma str_int_no_space (z : Z) : ~ In SPACE (str_int z).
Proof.
  pose proof (nat_digits_decimal (S (N.to_nat (N.log2 (Z.abs_N z))))
                                 (Z.abs_N z) [] eq_refl) as Hdec.
  fold (str_N (Z.abs_N z)) in Hdec. apply decimal_no_space in Hdec.
  unfold str_int. destruct (z <? 0)%Z; [|done].
  simpl. intros [H|H]; [done|by apply Hdec].
Qed.

(** X11: the id of a parsed question holds no space; it ends with "-"
    and the number written in two or more decimal digits; and when the
    exam name is empty it is "EXAM-XXXX-" followed by the number. *)
Theorem parsed_id_shape (chunk : text) (q : Question) :
  parse_chunk chunk = Ok q ->
  ~ In SPACE (q_id q)
  /\ (exists front, q_id q = front ++ cps "-" ++ format_02d (q_number q))
  /\ 2 <= length (format_02d (q_number q))
  /\ forallb isdecimal (format_02d (q_number q)) = true
  /\ (q_source_exam q = [] ->
      q_id q = cps "EXAM-XXXX-" ++ format_02d (q_number q)).
Proof.
  intros H. destruct (parsed_header_fields_aux _ _ H) as (Hn & Hy).
  apply parse_chunk_inv in H
    as (h & number & exam & year & _ & _ & Hid & <- & <- & <- & _).
  destruct (format_02d_digits _ Hn) as [Hlen Hdec].
  repeat split; try done.
  - rewrite Hid. unfold make_id. rewrite !in_app_iff.
    intros [Hu|[Hd|[Hy'|[Hd|Hf]]]].
    + by apply upper_no_space in Hu.
    + by vm_compute in Hd; destruct Hd as [|[]].
    + destruct (q_year q) as [y|].
      * destruct (y =? 0)%Z.
        -- vm_compute in Hy'. by repeat destruct Hy' as [Hy'|Hy'].
        -- by apply str_int_no_space in Hy'.
      * vm_compute in Hy'. by repeat destruct Hy' as [Hy'|Hy'].
    + by vm_compute in Hd; destruct Hd as [|[]].
    + by apply decimal_no_space in Hf.
  - rewrite Hid. unfold make_id. eexists. by rewrite !app_assoc.
  - intros Hexam. rewrite Hid, Hexam, (Hy Hexam). reflexivity.
Qed.

Lemma parsed_id_shape_witness :
  exists q, parse_chunk sample_block = Ok q
    /\ ~ In SPACE (q_id q)
    /\ 2 <= length (format_02d (q_number q)).
Proof.
  destruct (parse_chunk sample_block) as [q|e] eqn:E;
    [|vm_compute in E; discriminate].
  destruct (parsed_id_shape _ _ E) as (Hs & _ & Hl & _).
  exists q. by repeat split.
Defined.
